(** * Pressunto: the collection content store

    A shallow embedding of [app/lib/projects.server.ts]: the document
    parser wrapper ([processFileContent]), the collection loader
    ([getCollectionFiles]), the order/commit builder
    ([updateCollectionFileOrder]) and the creation and update of the
    configuration file ([createConfigFile], [updateConfigFile]).

    The file is organised as follows.
    - [JS]: the JavaScript primitives the source relies on (strings,
      template literals, truthiness, arrays of objects, [Array.prototype.sort]);
    - the data types of the source and the interfaces of the modules it
      imports ([./pathUtils], [front-matter], [./github]);
    - provider calls as a free monad, [Prog], so that a function is the
      tree of the remote calls it awaits, and [run], which plays a function
      against a provider;
    - the functions of the source;
    - models of the imported modules, which are not part of the source file;
    - the notions used to state the properties, and the properties. *)

From Stdlib Require Import ZArith List String Ascii Lia DecimalString DecimalZ DecimalPos.
From Stdlib Require Import Permutation Sorted.
From stdpp Require Import base option list strings gmap.

Open Scope string_scope.

(** ** JavaScript primitives *)

Module JS.

(** Values of a [Record<string, string | number>]. Numbers are restricted
    to integers, which is what the order builder writes. *)
Inductive value : Type :=
| VStr (s : string)
| VNum (n : Z).

#[export] Instance value_eq_dec : EqDecision value.
Proof. solve_decision. Defined.

(** A plain object used as a dictionary, as the list that
    [Object.entries] enumerates. *)
Definition object : Type := list (string * value).

(** Property access [o.k] / [o[k]]: [None] is [undefined]. *)
Fixpoint get (o : object) (k : string) : option value :=
  match o with
  | [] => None
  | (k', v) :: o' => if String.eqb k' k then Some v else get o' k
  end.

Definition keys (o : object) : list string := map fst o.

(** [Number.prototype.toString] on an integer. *)
Definition Number_toString (n : Z) : string :=
  NilZero.string_of_int (Z.to_int n).

(** Interpolation inside a template literal. *)
Definition ToString (v : value) : string :=
  match v with
  | VStr s => s
  | VNum n => Number_toString n
  end.

(** Truthiness of a possibly undefined value. *)
Definition ToBoolean (v : option value) : bool :=
  match v with
  | None => false
  | Some (VStr s) => negb (String.eqb s "")
  | Some (VNum n) => negb (n =? 0)%Z
  end.

(** [a || b] on values. *)
Definition or_else (v : option value) (d : value) : value :=
  match v with
  | Some x => if ToBoolean v then x else d
  | None => d
  end.

(** [Array.prototype.join]. *)
Fixpoint join (sep : string) (l : list string) : string :=
  match l with
  | [] => ""
  | x :: l' =>
      match l' with
      | [] => x
      | _ :: _ => x +:+ sep +:+ join sep l'
      end
  end.

(** [String.prototype.split] on a one-character separator. *)
Fixpoint split (c : ascii) (s : string) : list string :=
  match s with
  | EmptyString => [""]
  | String a r =>
      if Ascii.eqb a c then "" :: split c r
      else match split c r with
           | [] => [String a ""]
           | l :: ls => String a l :: ls
           end
  end.

(** [s.endsWith(suffix)]. *)
Definition endsWith (s suffix : string) : bool :=
  let n := String.length s in
  let m := String.length suffix in
  Nat.leb m n && String.eqb (substring (n - m) m s) suffix.

(** Objects have an identity: an array of objects is a list of
    references, and [indexOf] compares references, not contents. *)
Record Obj (A : Type) : Type := mkObj { oid : nat; val : A }.
Arguments mkObj {A} _ _.
Arguments oid {A} _.
Arguments val {A} _.

(** The array a provider call or a JSON decoder returns: every element
    is a newly allocated object. *)
Definition fresh {A : Type} (l : list A) : list (Obj A) :=
  imap (fun i x => mkObj i x) l.

Fixpoint indexOf_from {A : Type} (i : Z) (l : list (Obj A)) (x : Obj A) : Z :=
  match l with
  | [] => (-1)%Z
  | y :: l' => if Nat.eqb (oid y) (oid x) then i else indexOf_from (i + 1)%Z l' x
  end.

(** [Array.prototype.indexOf]: the first position holding the same object,
    [-1] when there is none. *)
Definition indexOf {A : Type} (l : list (Obj A)) (x : Obj A) : Z :=
  indexOf_from 0%Z l x.

(** Indexing [a[i]]: [undefined] (here [None]) out of range. *)
Definition nth_js {A : Type} (l : list A) (i : Z) : option A :=
  if (i <? 0)%Z then None else l !! Z.to_nat i.

(** [a - b] on numbers, [None] standing for [NaN]. *)
Definition minus (a b : option Z) : option Z :=
  match a, b with
  | Some x, Some y => Some (x - y)%Z
  | _, _ => None
  end.

(** [SortCompare]: a comparator result that is [NaN] counts as [+0]. *)
Definition SortCompare {A : Type} (comparefn : A -> A -> option Z) (x y : A) : Z :=
  match comparefn x y with
  | Some v => v
  | None => 0%Z
  end.

(** A consistent comparator for the elements of [l], as the language
    defines it: no answer is [NaN]; every element equals itself; equality
    is symmetric and transitive; less-than is transitive, and so is
    greater-than. *)
Definition Consistent {A : Type} (comparefn : A -> A -> option Z) (l : list A) : Prop :=
  let v := SortCompare comparefn in
  forall a b c, a ∈ l -> b ∈ l -> c ∈ l ->
    is_Some (comparefn a b)
    /\ v a a = 0%Z
    /\ (v a b = 0 -> v b a = 0)%Z
    /\ (v a b = 0 -> v b c = 0 -> v a c = 0)%Z
    /\ (v a b < 0 -> v b c < 0 -> v a c < 0)%Z
    /\ (0 < v a b -> 0 < v b c -> 0 < v a c)%Z.

Fixpoint insert_sorted {A : Type} (comparefn : A -> A -> option Z)
    (x : A) (l : list A) : list A :=
  match l with
  | [] => [x]
  | y :: l' =>
      if (SortCompare comparefn x y <=? 0)%Z then x :: y :: l'
      else y :: insert_sorted comparefn x l'
  end.

(** The list in the order of the comparator with the elements that compare
    equal in their original order, computed by insertion: an element moves
    behind another one only when the comparator says it is strictly
    greater. For a consistent comparator this is the one result that the
    language allows [Array.prototype.sort] to give. *)
Fixpoint stable_sort {A : Type} (comparefn : A -> A -> option Z) (l : list A) : list A :=
  match l with
  | [] => []
  | x :: l' => insert_sorted comparefn x (stable_sort comparefn l')
  end.

(** [Array.prototype.sort] is the engine's, here on an array without holes
    and without [undefined] elements. The language leaves the sequence of
    the calls of the comparator to the engine and fixes this much: the
    result holds the elements of the array; a call of the comparator that
    throws ends the sort with what it threw; and when the comparator is a
    consistent comparator for the elements, the result is in its order and
    stable (elements that compare equal keep their original order). For a
    comparator that is not consistent, one that answers [NaN] among them,
    the order of the result is the engine's choice. *)
Class ArraySort : Type := {
  sort_with {A E : Type} : (A -> A -> E + option Z) -> list A -> E + list A;
  sort_with_permutation {A E : Type} (comparefn : A -> A -> E + option Z) (l r : list A) :
    sort_with comparefn l = inr r -> Permutation r l;
  sort_with_abrupt {A E : Type} (comparefn : A -> A -> E + option Z) (l : list A) (e : E) :
    sort_with comparefn l = inl e ->
    exists a b, a ∈ l /\ b ∈ l /\ comparefn a b = inl e;
  sort_with_consistent {A E : Type} (comparefn : A -> A -> E + option Z)
      (c : A -> A -> option Z) (l r : list A) :
    (forall a b, a ∈ l -> b ∈ l -> comparefn a b = inr (c a b)) ->
    Consistent c l ->
    sort_with comparefn l = inr r ->
    StronglySorted (fun a b => (SortCompare c a b <= 0)%Z) r
    /\ (forall x, x ∈ l ->
          filter (fun y => SortCompare c x y = 0%Z) r
          = filter (fun y => SortCompare c x y = 0%Z) l)
}.

(** [l.sort(comparefn)] for a comparator that does not throw. *)
Definition sort `{ArraySort} {A : Type} (comparefn : A -> A -> option Z) (l : list A)
    : list A :=
  match sort_with (E := Empty_set) (fun a b => inr (comparefn a b)) l with
  | inr r => r
  | inl e => match e with end
  end.

(** An engine that sorts by insertion and stops at the first call of the
    comparator that throws. *)
Fixpoint insert_sorted_with {A E : Type} (comparefn : A -> A -> E + option Z)
    (x : A) (l : list A) : E + list A :=
  match l with
  | [] => inr [x]
  | y :: l' =>
      match comparefn x y with
      | inl e => inl e
      | inr v =>
          if (match v with Some v => v | None => 0 end <=? 0)%Z then inr (x :: y :: l')
          else match insert_sorted_with comparefn x l' with
               | inl e => inl e
               | inr r => inr (y :: r)
               end
      end
  end.

Fixpoint insertion_sort_with {A E : Type} (comparefn : A -> A -> E + option Z)
    (l : list A) : E + list A :=
  match l with
  | [] => inr []
  | x :: l' =>
      match insertion_sort_with comparefn l' with
      | inl e => inl e
      | inr r => insert_sorted_with comparefn x r
      end
  end.

(** [s.replace(/^\//, '')]. *)
Definition strip_leading_slash (s : string) : string :=
  match s with
  | String a r => if Ascii.eqb a "/" then r else s
  | EmptyString => s
  end.

End JS.
Import JS.

Definition nl : string := String "010" EmptyString.
Definition dquote : string := String "034" EmptyString.

(** ** Data model *)

(** [FileMode] and [TreeItem] of [./github]. *)
Inductive FileMode : Type := FILE | EXECUTABLE | SUBMODULE | SYMLINK | DIRECTORY.
Inductive TreeType : Type := blob | tree.

Module TreeItem.
Record t : Type := mk { path : string; sha : string; mode : FileMode; type : TreeType }.
End TreeItem.

(** The fields of [ParsedFile] that [processFileContent] picks. *)
Module ParsedFile.
Record t : Type := mk { content : string; sha : string; path : string }.
End ParsedFile.

Module Project.
Record t : Type :=
  mk { id : Z; user : string; title : string; repo : string; branch : string }.
End Project.

Module ProjectCollection.
Record t : Type :=
  mk { id : string; name : string; route : string; template : string }.
End ProjectCollection.

Module FieldConfig.
Record t : Type :=
  mk { name : string; field : string; default : string; hidden : bool }.
End FieldConfig.

Module ProjectTemplates.
Record t : Type := mk { id : string; name : string; fields : list FieldConfig.t }.
End ProjectTemplates.

Module ProjectConfig.
Record t : Type :=
  mk { mediaFolder : option string;
       collections : list ProjectCollection.t;
       templates : list ProjectTemplates.t }.
End ProjectConfig.

Module CollectionFile.
Record t : Type :=
  mk { id : string; title : value; path : string; attributes : object; body : string }.
End CollectionFile.

(** What [matter(text)] returns. *)
Module FrontMatterResult.
Record t : Type := mk { attributes : object; body : string }.
End FrontMatterResult.

(** The [Response] that the loader throws. *)
Module Response.
Record t : Type := mk { body : string; status : Z; statusText : string }.
End Response.

(** Arguments of the provider calls of [./github]. *)
Module GetFileParams.
Record t : Type := mk { file : string; repo : string; branch : string }.
End GetFileParams.

Module SaveParams.
Record t : Type :=
  mk { sha : option string; repo : string; branch : string;
       path : string; content : string; message : string }.
End SaveParams.

Module FileChange.
Record t : Type :=
  mk { content : option string; path : string; mode : FileMode; type : TreeType }.
End FileChange.

Module CommitParams.
Record t : Type :=
  mk { repo : string; branch : string; message : string; files : list FileChange.t }.
End CommitParams.

Module Commit.
Record t : Type := mk { sha : string }.
End Commit.

Module UpdateOrderParams.
Record t : Type :=
  mk { repo : string; branch : string; collectionRoute : string;
       files : list (Obj CollectionFile.t) }.
End UpdateOrderParams.

(** ** Imported modules, as interfaces *)

(** [./pathUtils]. *)
Class PathUtils : Type := {
  getBasename : string -> string;
  getDirname : string -> string;
  isMarkdown : string -> bool
}.

(** The [front-matter] package. *)
Class FrontMatter : Type := {
  matter : string -> FrontMatterResult.t
}.

(** Built-ins that are used as black boxes: the conversion of a string to
    a number ([None] is [NaN]) and [JSON.stringify(config, null, 2)]. *)
Class Builtins : Type := {
  StringToNumber : string -> option Z;
  JSON_stringify : ProjectConfig.t -> string
}.

(** ** Provider calls *)

(** A function of the source is the tree of the provider calls it awaits:
    each call carries its arguments and continues with the value the
    provider resolves to. [Throw] is a [throw] of the source itself. *)
Inductive Prog (A : Type) : Type :=
| Ret (a : A)
| Throw (r : Response.t)
| GetRepoFiles (token repo branch : string) (k : list TreeItem.t -> Prog A)
| GetFileContent (token : string) (p : GetFileParams.t) (k : option ParsedFile.t -> Prog A)
| SaveFile (token : string) (p : SaveParams.t) (k : unit -> Prog A)
| CommitAndPush (token : string) (p : CommitParams.t) (k : Commit.t -> Prog A).

Arguments Ret {A} _.
Arguments Throw {A} _.
Arguments GetRepoFiles {A} _ _ _ _.
Arguments GetFileContent {A} _ _ _.
Arguments SaveFile {A} _ _ _.
Arguments CommitAndPush {A} _ _ _.

Fixpoint bind {A B : Type} (m : Prog A) (f : A -> Prog B) : Prog B :=
  match m with
  | Ret a => f a
  | Throw r => Throw r
  | GetRepoFiles t r b k => GetRepoFiles t r b (fun x => bind (k x) f)
  | GetFileContent t p k => GetFileContent t p (fun x => bind (k x) f)
  | SaveFile t p k => SaveFile t p (fun x => bind (k x) f)
  | CommitAndPush t p k => CommitAndPush t p (fun x => bind (k x) f)
  end.

#[export] Instance prog_ret : MRet Prog := fun A a => Ret a.
#[export] Instance prog_bind : MBind Prog := fun A B f m => bind m f.

Definition getRepoFiles (token repo branch : string) : Prog (list TreeItem.t) :=
  GetRepoFiles token repo branch Ret.
Definition getFileContent (token : string) (p : GetFileParams.t) : Prog (option ParsedFile.t) :=
  GetFileContent token p Ret.
Definition saveFile (token : string) (p : SaveParams.t) : Prog unit :=
  SaveFile token p Ret.
Definition commitAndPush (token : string) (p : CommitParams.t) : Prog Commit.t :=
  CommitAndPush token p Ret.

(** [Promise.all]: the calls are issued in the order of the array and the
    results are collected in that order. *)
Fixpoint Promise_all {A : Type} (ps : list (Prog A)) : Prog (list A) :=
  match ps with
  | [] => Ret []
  | p :: ps' => x ← p; xs ← Promise_all ps'; mret (x :: xs)
  end.

(** A request as the provider sees it. *)
Inductive Request : Type :=
| ReqGetRepoFiles (token repo branch : string)
| ReqGetFileContent (token : string) (p : GetFileParams.t)
| ReqSaveFile (token : string) (p : SaveParams.t)
| ReqCommitAndPush (token : string) (p : CommitParams.t).

Inductive ProviderError : Type := NotFound | Conflict | Unavailable.

Inductive Failure : Type :=
| Thrown (r : Response.t)
| Rejected (e : ProviderError).

(** A provider: how each call answers in a state [S] of the remote
    repository, and the state it leaves. *)
Record Handler (S : Type) : Type := {
  on_getRepoFiles : string -> string -> string -> S -> (ProviderError + list TreeItem.t) * S;
  on_getFileContent : string -> GetFileParams.t -> S -> (ProviderError + option ParsedFile.t) * S;
  on_saveFile : string -> SaveParams.t -> S -> (ProviderError + unit) * S;
  on_commitAndPush : string -> CommitParams.t -> S -> (ProviderError + Commit.t) * S
}.
Arguments on_getRepoFiles {S} _.
Arguments on_getFileContent {S} _.
Arguments on_saveFile {S} _.
Arguments on_commitAndPush {S} _.

Module Run.
Record t (S A : Type) : Type :=
  mk { outcome : Failure + A; final : S; requests : list Request }.
Arguments mk {S A} _ _ _.
Arguments outcome {S A} _.
Arguments final {S A} _.
Arguments requests {S A} _.
End Run.

Definition step {S A B : Type} (req : Request) (answer : (ProviderError + B) * S)
    (continue : B -> S -> Run.t S A) : Run.t S A :=
  match answer with
  | (inl e, s') => Run.mk (inl (Rejected e)) s' [req]
  | (inr x, s') =>
      let r := continue x s' in
      Run.mk (Run.outcome r) (Run.final r) (req :: Run.requests r)
  end.

(** Running a function against a provider: a rejected call rejects the
    whole function, as nothing in the source catches. *)
Fixpoint run {S A : Type} (h : Handler S) (m : Prog A) (s : S) : Run.t S A :=
  match m with
  | Ret a => Run.mk (inr a) s []
  | Throw r => Run.mk (inl (Thrown r)) s []
  | GetRepoFiles t r b k =>
      step (ReqGetRepoFiles t r b) (on_getRepoFiles h t r b s) (fun x => run h (k x))
  | GetFileContent t p k =>
      step (ReqGetFileContent t p) (on_getFileContent h t p s) (fun x => run h (k x))
  | SaveFile t p k =>
      step (ReqSaveFile t p) (on_saveFile h t p s) (fun x => run h (k x))
  | CommitAndPush t p k =>
      step (ReqCommitAndPush t p) (on_commitAndPush h t p s) (fun x => run h (k x))
  end.

(** ** The source: [app/lib/projects.server.ts] *)

Definition CONFIG_FILE_NAME : string := "pressunto.config.json".

Definition CONFIG_FILE_TEMPLATE : string :=
  join nl [ "{";
            "  " +:+ dquote +:+ "collections" +:+ dquote +:+ ": [],";
            "  " +:+ dquote +:+ "templates" +:+ dquote +:+ ": []";
            "}";
            "" ].

(** [for (const x of l) { ...; acc.push(y) }] where the body may throw. *)
Fixpoint for_push {A B : Type} (l : list A) (body : A -> Prog B) (acc : list B)
    : Prog (list B) :=
  match l with
  | [] => mret acc
  | x :: l' => y ← body x; for_push l' body (acc ++ [y])
  end.

Section Source.
Context `{PathUtils} `{FrontMatter} `{Builtins} `{ArraySort}.

Definition createConfigFile (token repo branch : string) : Prog unit :=
  repoTree ← getRepoFiles token repo branch;
  let configFile :=
    List.find (fun f => String.eqb (TreeItem.path f) CONFIG_FILE_NAME) repoTree in
  match configFile with
  | Some _ => mret tt
  | None =>
      saveFile token
        {| SaveParams.sha := None;
           SaveParams.repo := repo;
           SaveParams.branch := branch;
           SaveParams.path := CONFIG_FILE_NAME;
           SaveParams.content := CONFIG_FILE_TEMPLATE;
           SaveParams.message := "[skip ci] Create config file for Pressunto" |}
  end.

Definition updateConfigFile (token : string) (project : Project.t)
    (config : ProjectConfig.t) : Prog unit :=
  file ← getFileContent token
    {| GetFileParams.file := CONFIG_FILE_NAME;
       GetFileParams.repo := Project.repo project;
       GetFileParams.branch := Project.branch project |};
  saveFile token
    {| SaveParams.sha := ParsedFile.sha <$> file;
       SaveParams.repo := Project.repo project;
       SaveParams.branch :=
         (if String.eqb (Project.branch project) "" then "master"
          else Project.branch project);
       SaveParams.path := CONFIG_FILE_NAME;
       SaveParams.content := JSON_stringify config;
       SaveParams.message := "[skip ci] Update config file for Pressunto" |}.

Definition processFileContent (fileContent : ParsedFile.t) : CollectionFile.t :=
  let data := matter (ParsedFile.content fileContent) in
  let title :=
    or_else (get (FrontMatterResult.attributes data) "title")
            (VStr (getBasename (ParsedFile.path fileContent))) in
  {| CollectionFile.id := ParsedFile.sha fileContent;
     CollectionFile.title := title;
     CollectionFile.path := ParsedFile.path fileContent;
     CollectionFile.attributes := FrontMatterResult.attributes data;
     CollectionFile.body := FrontMatterResult.body data |}.

(** The filter callback of [getCollectionFiles]. *)
Definition in_collection (collection : ProjectCollection.t) (f : Obj TreeItem.t) : bool :=
  let inCollection :=
    String.eqb (getDirname (TreeItem.path (val f)))
               (strip_leading_slash (ProjectCollection.route collection)) in
  inCollection && isMarkdown (TreeItem.path (val f)).

Definition not_found (f : Obj TreeItem.t) : Response.t :=
  {| Response.body :=
       "Content for file " +:+ dquote +:+ TreeItem.path (val f) +:+ dquote
         +:+ " was not found in github API";
     Response.status := 404;
     Response.statusText := "Not found" |}.

(** [ToNumber] of a possibly undefined attribute. *)
Definition ToNumber (v : option value) : option Z :=
  match v with
  | None => None
  | Some (VNum n) => Some n
  | Some (VStr s) => StringToNumber s
  end.

Definition order_of (a : CollectionFile.t) : option Z :=
  ToNumber (get (CollectionFile.attributes a) "order").

(** The comparator [(a, b) => a.attributes.order - b.attributes.order]. *)
Definition by_order (a b : CollectionFile.t) : option Z :=
  minus (order_of a) (order_of b).

(** The body of the loop of [getCollectionFiles] over the selected entries. *)
Definition parse_or_throw (collectionTree : list (Obj TreeItem.t))
    (contents : list (option ParsedFile.t)) (f : Obj TreeItem.t) : Prog CollectionFile.t :=
  let fileContent := nth_js contents (indexOf collectionTree f) in
  match fileContent with
  | Some (Some fileContent) => mret (processFileContent fileContent)
  | _ => Throw (not_found f)
  end.

Definition getCollectionFiles (token : string) (project : Project.t)
    (collection : ProjectCollection.t) : Prog (list CollectionFile.t) :=
  tree ← getRepoFiles token (Project.repo project) (Project.branch project);
  let collectionTree := List.filter (in_collection collection) (fresh tree) in
  contents ← Promise_all
    (map (fun f => getFileContent token
                     {| GetFileParams.file := TreeItem.path (val f);
                        GetFileParams.repo := Project.repo project;
                        GetFileParams.branch := Project.branch project |})
         collectionTree);
  parsedFiles ← for_push collectionTree (parse_or_throw collectionTree contents) [];
  mret (sort by_order parsedFiles).

(** The value interpolated after the key in a line of the metadata block. *)
Definition order_or_value (files : list (Obj CollectionFile.t))
    (file : Obj CollectionFile.t) (key : string) (value : value) : JS.value :=
  if String.eqb key "order" then VNum (indexOf files file) else value.

(** The text written for one file of the payload. *)
Definition serialize (files : list (Obj CollectionFile.t))
    (file : Obj CollectionFile.t) : string :=
  let matter :=
    join nl (map (fun '(key, value) =>
                    key +:+ ": " +:+ ToString (order_or_value files file key value))
                 (CollectionFile.attributes (val file))) in
  join nl ["---"; matter; "---"; ""; CollectionFile.body (val file)].

Definition updateCollectionFileOrder (token : string) (payload : UpdateOrderParams.t)
    : Prog Commit.t :=
  let files := UpdateOrderParams.files payload in
  let contents := map (serialize files) files in
  commitAndPush token
    {| CommitParams.repo := UpdateOrderParams.repo payload;
       CommitParams.branch := UpdateOrderParams.branch payload;
       CommitParams.message :=
         "Updated order for files in " +:+ UpdateOrderParams.collectionRoute payload;
       CommitParams.files :=
         imap (fun i f =>
                 {| FileChange.content := contents !! i;
                    FileChange.path := CollectionFile.path (val f);
                    FileChange.mode := FILE;
                    FileChange.type := blob |})
              files |}.

End Source.

(** ** Models of the imported modules *)

(** [true] when the character occurs in the string. *)
Fixpoint contains (c : ascii) (s : string) : bool :=
  match s with
  | EmptyString => false
  | String a r => Ascii.eqb a c || contains c r
  end.

Module PathUtilsModel.

(** Modelled from the spec: [getDirname] of [./pathUtils], which is not
    part of the source file; the parent directory of a repository-relative
    path, that is the path without its last segment. *)
Definition getDirname (path : string) : string :=
  join "/" (removelast (split "/" path)).

(** Modelled from the spec: [getBasename] of [./pathUtils]; the last
    segment of the path (the media route moves a file to
    [folder/getBasename(path)], so the extension is kept). *)
Definition getBasename (path : string) : string :=
  List.last (split "/" path) "".

(** Modelled from the spec: [isMarkdown] of [./pathUtils]; the path ends
    in an extension of the markdown family. *)
Definition isMarkdown (path : string) : bool :=
  endsWith path ".md" || endsWith path ".mdx" || endsWith path ".markdown".

Definition instance : PathUtils :=
  Build_PathUtils getBasename getDirname isMarkdown.

End PathUtilsModel.

Module FrontMatterModel.

Definition marker : string := "---".

Definition is_space (a : ascii) : bool :=
  Ascii.eqb a " " || Ascii.eqb a "009" || Ascii.eqb a "011"
  || Ascii.eqb a "012" || Ascii.eqb a "013".

(** A line made of white space only. *)
Fixpoint is_blank (s : string) : bool :=
  match s with
  | EmptyString => true
  | String a r => is_space a && is_blank r
  end.

(** The lines up to the closing marker, and the lines after it. *)
Fixpoint break_at_marker (ls : list string) : option (list string * list string) :=
  match ls with
  | [] => None
  | l :: ls' =>
      if String.eqb l marker then Some ([], ls')
      else match break_at_marker ls' with
           | Some (meta, after) => Some (l :: meta, after)
           | None => None
           end
  end.

(** The text before and after the first occurrence of a character. *)
Fixpoint cut (c : ascii) (s : string) : option (string * string) :=
  match s with
  | EmptyString => None
  | String a r =>
      if Ascii.eqb a c then Some ("", r)
      else match cut c r with
           | Some (k, v) => Some (String a k, v)
           | None => None
           end
  end.

(** A scalar is a number when it reads as a decimal integer, and a
    string otherwise. *)
Definition scalar (s : string) : value :=
  match NilZero.int_of_string s with
  | Some d => VNum (Z.of_int d)
  | None => VStr s
  end.

(** One [key: value] line. *)
Definition parse_line (l : string) : option (string * value) :=
  match cut ":" l with
  | Some (k, String a v) =>
      if Ascii.eqb a " " && negb (String.eqb k "") then Some (k, scalar v) else None
  | _ => None
  end.

(** The metadata block: blank lines are skipped, a line that is not
    [key: value] or a key given twice makes the block malformed. *)
Fixpoint parse_block (ls : list string) : option object :=
  match ls with
  | [] => Some []
  | l :: ls' =>
      if is_blank l then parse_block ls'
      else match parse_line l, parse_block ls' with
           | Some (k, v), Some o =>
               match get o k with
               | Some _ => None
               | None => Some ((k, v) :: o)
               end
           | _, _ => None
           end
  end.

Fixpoint drop_blank (ls : list string) : list string :=
  match ls with
  | [] => []
  | l :: ls' => if is_blank l then drop_blank ls' else ls
  end.

Definition no_front_matter (text : string) : FrontMatterResult.t :=
  {| FrontMatterResult.attributes := []; FrontMatterResult.body := text |}.

(** Modelled from the spec: the parser [matter] of the [front-matter]
    package, which is not part of the source file. A document is an
    optional leading metadata block of [key: value] lines between two
    marker lines, then blank lines, then the body. A text without such a
    block, or with a malformed one, parses to an empty attribute map and
    the whole text as body; it never raises. *)
Definition matter (text : string) : FrontMatterResult.t :=
  match split "010" text with
  | first :: rest =>
      if String.eqb first marker then
        match break_at_marker rest with
        | Some (meta, after) =>
            match parse_block meta with
            | Some attributes =>
                {| FrontMatterResult.attributes := attributes;
                   FrontMatterResult.body := join nl (drop_blank after) |}
            | None => no_front_matter text
            end
        | None => no_front_matter text
        end
      else no_front_matter text
  | [] => no_front_matter text
  end.

Definition instance : FrontMatter := Build_FrontMatter matter.

End FrontMatterModel.

Module GitHub.

(** An entry of the tree of a branch. *)
Inductive entry : Type :=
| Blob (content sha : string)
| Tree (sha : string).

Record t : Type := mk {
  default_branch : string;
  branches : gmap string (gmap string entry)
}.

(** A call without a branch is served on the default branch. *)
Definition resolve (g : t) (branch : string) : string :=
  if String.eqb branch "" then default_branch g else branch.

Definition files_at (g : t) (branch : string) : gmap string entry :=
  default ∅ (branches g !! resolve g branch).

Definition item_of (pe : string * entry) : TreeItem.t :=
  match pe with
  | (p, Blob _ s) => TreeItem.mk p s FILE blob
  | (p, Tree s) => TreeItem.mk p s DIRECTORY tree
  end.

Definition put (g : t) (branch path content sha : string) : t :=
  {| default_branch := default_branch g;
     branches :=
       <[resolve g branch := <[path := Blob content sha]> (files_at g branch)]>
         (branches g) |}.

Section Provider.
(** The content identifier of a text, and what other writers do to the
    repository before a call is served. *)
Variable git_hash : string -> string.
Variable others : t -> t.

Definition list_tree (branch : string) (g : t) : (ProviderError + list TreeItem.t) * t :=
  let g := others g in
  (inr (map item_of (map_to_list (files_at g branch))), g).

Definition read_file (p : GetFileParams.t) (g : t)
    : (ProviderError + option ParsedFile.t) * t :=
  let g := others g in
  let file :=
    match files_at g (GetFileParams.branch p) !! GetFileParams.file p with
    | Some (Blob c s) => Some (ParsedFile.mk c s (GetFileParams.file p))
    | _ => None
    end in
  (inr file, g).

(** A write names the identifier it replaces: a file that exists is
    replaced only when the identifier is its current one, a file that
    does not exist is created only when no identifier is named. *)
Definition write_file (p : SaveParams.t) (g : t) : (ProviderError + unit) * t :=
  let g := others g in
  let accept :=
    (inr tt,
     put g (SaveParams.branch p) (SaveParams.path p) (SaveParams.content p)
           (git_hash (SaveParams.content p))) in
  match files_at g (SaveParams.branch p) !! SaveParams.path p with
  | None =>
      match SaveParams.sha p with
      | None => accept
      | Some _ => (inl Conflict, g)
      end
  | Some (Blob _ current) =>
      match SaveParams.sha p with
      | Some base => if String.eqb base current then accept else (inl Conflict, g)
      | None => (inl Conflict, g)
      end
  | Some (Tree _) => (inl Unavailable, g)
  end.

Definition apply_change (branch : string) (acc : option t) (c : FileChange.t)
    : option t :=
  match acc, FileChange.content c with
  | Some g, Some text => Some (put g branch (FileChange.path c) text (git_hash text))
  | _, _ => None
  end.

(** All the changes of a commit are applied, or none. *)
Definition commit (p : CommitParams.t) (g : t) : (ProviderError + Commit.t) * t :=
  let g := others g in
  match fold_left (apply_change (CommitParams.branch p)) (CommitParams.files p) (Some g) with
  | Some g' => (inr (Commit.mk (git_hash (CommitParams.message p))), g')
  | None => (inl Unavailable, g)
  end.

(** Modelled from the spec: the provider behind [getRepoFiles],
    [getFileContent], [saveFile] and [commitAndPush] of [./github], which
    is not part of the source file; one repository, its branches, and
    writes that are rejected when their base identifier is stale. *)
Definition handler : Handler t :=
  {| on_getRepoFiles := fun _ _ branch => list_tree branch;
     on_getFileContent := fun _ p => read_file p;
     on_saveFile := fun _ p => write_file p;
     on_commitAndPush := fun _ p => commit p |}.
End Provider.

End GitHub.

(** A provider that only reads: it answers every listing with [tree] and
    every fetch of a path with [fetch path]; a missing file is [None]. *)
Definition snapshot (tree : list TreeItem.t) (fetch : string -> option ParsedFile.t)
    : Handler unit :=
  {| on_getRepoFiles := fun _ _ _ s => (inr tree, s);
     on_getFileContent := fun _ p s => (inr (fetch (GetFileParams.file p)), s);
     on_saveFile := fun _ _ s => (inl Unavailable, s);
     on_commitAndPush := fun _ _ s => (inl Unavailable, s) |}.

(** ** Notions used to state the properties *)

(** The text of a document: the metadata block, one [key: value] line per
    attribute in the order of the map, a blank line and the body. *)
Definition render (attributes : object) (body : string) : string :=
  join nl [ "---";
            join nl (map (fun '(key, value) => key +:+ ": " +:+ ToString value) attributes);
            "---"; ""; body ].

(** The attribute map that the order builder writes for a file. *)
Definition written_attributes (files : list (Obj CollectionFile.t))
    (file : Obj CollectionFile.t) : object :=
  map (fun '(key, value) => (key, order_or_value files file key value))
      (CollectionFile.attributes (val file)).

(** The change of the commit for a file. *)
Definition change_of (files : list (Obj CollectionFile.t))
    (file : Obj CollectionFile.t) : FileChange.t :=
  {| FileChange.content := Some (serialize files file);
     FileChange.path := CollectionFile.path (val file);
     FileChange.mode := FILE;
     FileChange.type := blob |}.

(** Ascending numeric order of two documents, both with a numeric [order]. *)
Definition order_le `{Builtins} (a b : CollectionFile.t) : Prop :=
  match order_of a, order_of b with
  | Some x, Some y => (x <= y)%Z
  | _, _ => False
  end.

(** The documents on which the parser model reads back what [render]
    writes: a key is not empty and has no colon and no line break; a string
    value has no line break and does not read as a number; no key occurs
    twice; the body is empty or starts with a line that is not blank. *)
Definition wf_key (k : string) : bool :=
  negb (String.eqb k "") && negb (contains ":" k) && negb (contains "010" k).

Definition wf_value (v : value) : bool :=
  match v with
  | VNum _ => true
  | VStr s =>
      negb (contains "010" s)
      && match NilZero.int_of_string s with Some _ => false | None => true end
  end.

Fixpoint wf_object (o : object) : bool :=
  match o with
  | [] => true
  | (k, v) :: o' =>
      wf_key k && wf_value v
      && match get o' k with Some _ => false | None => true end
      && wf_object o'
  end.


(** One line of the metadata block. *)
Definition metadata_line (kv : string * value) : string :=
  let '(key, value) := kv in key +:+ ": " +:+ ToString value.

(** The lines of the metadata block of [render], as [split] returns them:
    the block of an empty map is one empty line. *)
Definition block_lines (o : object) : list string :=
  match o with
  | [] => [""]
  | _ :: _ => map metadata_line o
  end.

(** A text without its leading blank lines. *)
Definition trim_blank_lines (b : string) : string :=
  join nl (FrontMatterModel.drop_blank (split "010" b)).

(** The request that creates the configuration file. *)
Definition create_request (token repo branch : string) : Request :=
  ReqSaveFile token
    {| SaveParams.sha := None;
       SaveParams.repo := repo;
       SaveParams.branch := branch;
       SaveParams.path := CONFIG_FILE_NAME;
       SaveParams.content := CONFIG_FILE_TEMPLATE;
       SaveParams.message := "[skip ci] Create config file for Pressunto" |}.

(** Sample data for the examples. *)
Definition sample_ordered (n : nat) (order : Z) (name : string) : Obj CollectionFile.t :=
  mkObj n (CollectionFile.mk ("sha-" +:+ name) (VStr name) ("posts/" +:+ name +:+ ".md")
             [("title", VStr name); ("order", VNum order)] ("About " +:+ name)).

Definition tree_of_paths (paths : list string) : list TreeItem.t :=
  map (fun p => TreeItem.mk p ("sha-" +:+ p) FILE blob) paths.

Definition sample_text : string :=
  join nl ["---"; "title: Hello"; "order: 7"; "---"; ""; "First line"; "second line"].


(** The write requests among the requests of a run. *)
Definition is_write (r : Request) : bool :=
  match r with
  | ReqSaveFile _ _ | ReqCommitAndPush _ _ => true
  | _ => false
  end.

(** ** The rest of the configuration file's life cycle *)

(** Arguments of [deleteFile] of [./github]. *)
Module DeleteParams.
Record t : Type := mk { repo : string; branch : string; message : string; path : string }.
End DeleteParams.

(** [JSON.parse] on the text of a configuration file, as a black box:
    [None] when it throws. *)
Class JsonParse : Type := {
  JSON_parse : string -> option ProjectConfig.t
}.

(** Functions that also delete: a tree of the calls of [Prog] and of
    [deleteFile] calls. *)
Inductive Ext (A : Type) : Type :=
| Pure (a : A)
| Core {B : Type} (m : Prog B) (k : B -> Ext A)
| DeleteFile (token : string) (p : DeleteParams.t) (k : unit -> Ext A).

Arguments Pure {A} _.
Arguments Core {A B} _ _.
Arguments DeleteFile {A} _ _ _.

Inductive RequestX : Type :=
| Issued (r : Request)
| ReqDeleteFile (token : string) (p : DeleteParams.t).

Module RunX.
Record t (S A : Type) : Type :=
  mk { outcome : Failure + A; final : S; requests : list RequestX }.
Arguments mk {S A} _ _ _.
Arguments outcome {S A} _.
Arguments final {S A} _.
Arguments requests {S A} _.
End RunX.

(** Running against a provider [h] that answers [deleteFile] with
    [on_deleteFile]. *)
Fixpoint run_ext {S A : Type} (h : Handler S)
    (on_deleteFile : string -> DeleteParams.t -> S -> (ProviderError + unit) * S)
    (m : Ext A) (s : S) : RunX.t S A :=
  match m with
  | Pure a => RunX.mk (inr a) s []
  | Core m k =>
      let r := run h m s in
      match Run.outcome r with
      | inl e => RunX.mk (inl e) (Run.final r) (map Issued (Run.requests r))
      | inr b =>
          let r' := run_ext h on_deleteFile (k b) (Run.final r) in
          RunX.mk (RunX.outcome r') (RunX.final r')
                  (map Issued (Run.requests r) ++ RunX.requests r')
      end
  | DeleteFile t p k =>
      match on_deleteFile t p s with
      | (inl e, s') => RunX.mk (inl (Rejected e)) s' [ReqDeleteFile t p]
      | (inr x, s') =>
          let r' := run_ext h on_deleteFile (k x) s' in
          RunX.mk (RunX.outcome r') (RunX.final r') (ReqDeleteFile t p :: RunX.requests r')
      end
  end.

Definition deleteFile (token : string) (p : DeleteParams.t) : Ext unit :=
  DeleteFile token p Pure.

Definition deleteConfigFile (token : string) (project : Project.t) : Ext unit :=
  let repo := Project.repo project in
  let branch := Project.branch project in
  Core (getFileContent token
          {| GetFileParams.file := CONFIG_FILE_NAME;
             GetFileParams.repo := repo;
             GetFileParams.branch := branch |})
       (fun file =>
          match file with
          | Some _ =>
              deleteFile token
                {| DeleteParams.repo := repo;
                   DeleteParams.branch := branch;
                   DeleteParams.message := "[skip ci] Delete config file for Pressunto";
                   DeleteParams.path := CONFIG_FILE_NAME |}
          | None => Pure tt
          end).

(** [file?.content || CONFIG_FILE_TEMPLATE]. *)
Definition content_or_template (file : option ParsedFile.t) : string :=
  match file with
  | Some f =>
      if String.eqb (ParsedFile.content f) "" then CONFIG_FILE_TEMPLATE
      else ParsedFile.content f
  | None => CONFIG_FILE_TEMPLATE
  end.

Definition getProjectConfig `{JsonParse} (token : string) (project : Project.t)
    : Prog (option ProjectConfig.t) :=
  file ← getFileContent token
    {| GetFileParams.file := CONFIG_FILE_NAME;
       GetFileParams.repo := Project.repo project;
       GetFileParams.branch := Project.branch project |};
  mret (JSON_parse (content_or_template file)).

Definition github_remove (g : GitHub.t) (branch path : string) : GitHub.t :=
  {| GitHub.default_branch := GitHub.default_branch g;
     GitHub.branches :=
       <[GitHub.resolve g branch := delete path (GitHub.files_at g branch)]>
         (GitHub.branches g) |}.

(** Modelled from the spec: the provider behind [deleteFile] of [./github],
    which is not part of the source file; a file that exists is removed, a
    file that does not exist is reported as not found. *)
Definition github_delete (others : GitHub.t -> GitHub.t) (p : DeleteParams.t)
    (g : GitHub.t) : (ProviderError + unit) * GitHub.t :=
  let g := others g in
  match GitHub.files_at g (DeleteParams.branch p) !! DeleteParams.path p with
  | Some (GitHub.Blob _ _) =>
      (inr tt, github_remove g (DeleteParams.branch p) (DeleteParams.path p))
  | Some (GitHub.Tree _) => (inl Unavailable, g)
  | None => (inl NotFound, g)
  end.

(** ** The project registry *)

Module Redis.

(** What the client stores under a key: a JSON value (a number or a
    project record) or a set of numbers. *)
Inductive json : Type :=
| JNum (n : Z)
| JProj (p : Project.t).

Inductive value : Type :=
| Json (j : json)
| Members (s : gset Z).

Abbreviation t := (gmap string value).

Inductive failure : Type :=
| WrongType
| NotAnInteger
| Overflow
| TypeError.

(** A command, or a function made of commands: the reply or the failure,
    and the store it leaves. *)
Definition M (A : Type) : Type := t -> (failure + A) * t.

Definition ret {A : Type} (a : A) : M A := fun db => (inr a, db).

Definition bind {A B : Type} (m : M A) (f : A -> M B) : M B :=
  fun db =>
    match m db with
    | (inl e, db') => (inl e, db')
    | (inr a, db') => f a db'
    end.

Definition fail {A : Type} (e : failure) : M A := fun db => (inl e, db).

#[global] Instance registry_ret : MRet M := @ret.
#[global] Instance registry_bind : MBind M := fun A B f m => bind m f.

(** [Promise.all] over commands: every command is sent, in the order of
    the array; the promise is rejected when one of them is. *)
Fixpoint all {A : Type} (commands : list (M A)) : M (list A) :=
  match commands with
  | [] => ret []
  | c :: commands' =>
      fun db =>
        match c db with
        | (inl e, db') => (inl e, snd (all commands' db'))
        | (inr a, db') =>
            match all commands' db' with
            | (inl e, db'') => (inl e, db'')
            | (inr l, db'') => (inr (a :: l), db'')
            end
        end
  end.

Definition max_int64 : Z := 9223372036854775807.

(** Modelled from the spec: the commands of the key-value store behind the
    registry (the [@upstash/redis] client), which is not part of the source
    file, with the behaviour of the Redis commands of the same names. *)
Definition incr (key : string) : M Z :=
  fun db =>
    match db !! key with
    | None => (inr 1%Z, <[key := Json (JNum 1)]> db)
    | Some (Json (JNum n)) =>
        if (n <? max_int64)%Z then (inr (n + 1)%Z, <[key := Json (JNum (n + 1))]> db)
        else (inl Overflow, db)
    | Some (Json (JProj _)) => (inl NotAnInteger, db)
    | Some (Members _) => (inl WrongType, db)
    end.

Definition sadd (key : string) (member : Z) : M Z :=
  fun db =>
    match db !! key with
    | None => (inr 1%Z, <[key := Members {[member]}]> db)
    | Some (Members s) =>
        (inr (if decide (member ∈ s) then 0%Z else 1%Z),
         <[key := Members ({[member]} ∪ s)]> db)
    | Some (Json _) => (inl WrongType, db)
    end.

Definition srem (key : string) (member : Z) : M Z :=
  fun db =>
    match db !! key with
    | None => (inr 0%Z, db)
    | Some (Members s) =>
        if decide (member ∈ s) then
          (inr 1%Z,
           if decide (s ∖ {[member]} = ∅) then delete key db
           else <[key := Members (s ∖ {[member]})]> db)
        else (inr 0%Z, db)
    | Some (Json _) => (inl WrongType, db)
    end.

Definition smembers (key : string) : M (list Z) :=
  fun db =>
    match db !! key with
    | None => (inr [], db)
    | Some (Members s) => (inr (elements s), db)
    | Some (Json _) => (inl WrongType, db)
    end.

Definition set (key : string) (j : json) : M unit :=
  fun db => (inr tt, <[key := Json j]> db).

Definition get (key : string) : M (option json) :=
  fun db =>
    match db !! key with
    | None => (inr None, db)
    | Some (Json j) => (inr (Some j), db)
    | Some (Members _) => (inl WrongType, db)
    end.

Definition mget (keys : list string) : M (list (option json)) :=
  fun db =>
    (inr (map (fun key =>
                 match db !! key with
                 | Some (Json j) => Some j
                 | _ => None
                 end) keys), db).

Definition del (key : string) : M Z :=
  fun db =>
    match db !! key with
    | None => (inr 0%Z, db)
    | Some _ => (inr 1%Z, delete key db)
    end.

End Redis.

(** [String.prototype.localeCompare], as a black box. *)
Class Locale : Type := {
  localeCompare : string -> string -> Z
}.

(** [Omit<Project, 'id'>]. *)
Module NewProject.
Record t : Type := mk { user : string; title : string; repo : string; branch : string }.
End NewProject.

Definition NEXT_PROJECT_KEY : string := "next_project_id".

(** The keys [`projects:${user}`], [`project:${id}`] and [`repo:${repo}`]. *)
Definition projects_key (user : string) : string := "projects:" +:+ user.
Definition project_key (id : Z) : string := "project:" +:+ Number_toString id.
Definition repo_key (repo : string) : string := "repo:" +:+ repo.

Section Registry.
Context `{Locale} `{ArraySort}.

(** The comparator [(a, b) => a.title.localeCompare(b.title)] on the
    replies of [mget]. Reading [title] of [null] throws; the [title] of a
    number is [undefined], which has no [localeCompare] as the receiver
    and is the text [undefined] as the argument. *)
Definition by_title (a b : option Redis.json) : Redis.failure + option Z :=
  match a with
  | Some (Redis.JProj p) =>
      match b with
      | Some (Redis.JProj q) => inr (Some (localeCompare (Project.title p) (Project.title q)))
      | Some (Redis.JNum _) => inr (Some (localeCompare (Project.title p) "undefined"))
      | None => inl Redis.TypeError
      end
  | _ => inl Redis.TypeError
  end.

(** [projects.sort(...)] on the replies of [mget]. *)
Definition sort_by_title (projects : list (option Redis.json))
    : Redis.M (list (option Redis.json)) :=
  match sort_with by_title projects with
  | inr sorted => mret sorted
  | inl e => Redis.fail e
  end.

Definition getUserProjects (user : string) : Redis.M (list (option Redis.json)) :=
  ids ← Redis.smembers (projects_key user);
  if Nat.eqb (length ids) 0 then mret []
  else
    projects ← Redis.mget (map project_key ids);
    sort_by_title projects.

End Registry.

Definition getProject (id : Z) : Redis.M (option Redis.json) :=
  Redis.get (project_key id).

Definition getIdForRepo (repo : string) : Redis.M (option Redis.json) :=
  Redis.get (repo_key repo).

Definition with_id (project : NewProject.t) (id : Z) : Project.t :=
  {| Project.id := id;
     Project.user := NewProject.user project;
     Project.title := NewProject.title project;
     Project.repo := NewProject.repo project;
     Project.branch := NewProject.branch project |}.

Definition createProject (project : NewProject.t) : Redis.M Z :=
  id ← Redis.incr NEXT_PROJECT_KEY;
  _ ← Redis.all
        [ (_ ← Redis.sadd (projects_key (NewProject.user project)) id; mret tt);
          Redis.set (project_key id) (Redis.JProj (with_id project id));
          Redis.set (repo_key (NewProject.repo project)) (Redis.JNum id) ];
  mret id.

Definition updateProject (project : Project.t) : Redis.M unit :=
  Redis.set (project_key (Project.id project)) (Redis.JProj project).

Definition deleteProject (project : Project.t) : Redis.M (list Z) :=
  Redis.all
    [ Redis.srem (projects_key (Project.user project)) (Project.id project);
      Redis.del (project_key (Project.id project));
      Redis.del (repo_key (Project.repo project)) ].

(** The members of the index of a user, the empty set when there is none. *)
Definition members_of (db : Redis.t) (user : string) : gset Z :=
  match db !! projects_key user with
  | Some (Redis.Members s) => s
  | _ => ∅
  end.

(** The counter is absent, or a number that JavaScript represents exactly
    after the increment; [id] is the next identifier. *)
Definition next_id (db : Redis.t) (id : Z) : Prop :=
  (db !! NEXT_PROJECT_KEY = None /\ id = 1%Z)
  \/ (exists n, db !! NEXT_PROJECT_KEY = Some (Redis.Json (Redis.JNum n))
                /\ (n < 9007199254740991)%Z /\ id = (n + 1)%Z).

(** The key of the index of a user is free or holds a set. *)
Definition index_ok (db : Redis.t) (user : string) : Prop :=
  db !! projects_key user = None
  \/ exists s, db !! projects_key user = Some (Redis.Members s).

(** The record stored for an identifier, when it is a project. *)
Definition record_of (db : Redis.t) (id : Z) : option Project.t :=
  match db !! project_key id with
  | Some (Redis.Json (Redis.JProj p)) => Some p
  | _ => None
  end.

(** The reply of [mget] for the record key of an identifier. *)
Definition reply_of (db : Redis.t) (id : Z) : option Redis.json :=
  match db !! project_key id with
  | Some (Redis.Json j) => Some j
  | _ => None
  end.

(** [a] is not after [b] in the order of the titles. *)
Definition title_le `{Locale} (a b : Project.t) : Prop :=
  (localeCompare (Project.title a) (Project.title b) <= 0)%Z.

(** What the comparator of [getUserProjects] answers on two project
    records, and on two replies that are project records. *)
Definition title_order `{Locale} (a b : Project.t) : option Z :=
  Some (localeCompare (Project.title a) (Project.title b)).

Definition reply_order `{Locale} (a b : option Redis.json) : option Z :=
  match a, b with
  | Some (Redis.JProj p), Some (Redis.JProj q) => title_order p q
  | _, _ => None
  end.

(** ** Runs and sample inputs *)

(** A run against the provider with no other writer; a deletion request is
    served by [github_delete]. *)
Definition github_run_ext {A : Type} (git_hash : string -> string) (m : Ext A)
    (g : GitHub.t) : RunX.t GitHub.t A :=
  run_ext (GitHub.handler git_hash (fun g => g)) (fun _ => github_delete (fun g => g)) m g.

(** Sample inputs of the worked instances. *)
Definition sample_project : Project.t := Project.mk 1 "ana" "Site" "ana/site" "main".

Definition sample_builtins : Builtins :=
  Build_Builtins (fun _ => None) (fun config =>
    match ProjectConfig.mediaFolder config with
    | Some folder => "{media:" +:+ folder +:+ "}"
    | None => "{}"
    end).

Definition sample_json : JsonParse :=
  Build_JsonParse (fun text =>
    if String.eqb text "{}" then Some (ProjectConfig.mk None [] [])
    else if String.eqb text CONFIG_FILE_TEMPLATE then Some (ProjectConfig.mk None [] [])
    else None).

(** The program ends without a call of the provider. *)
Definition no_calls {A : Type} (m : Prog A) : Prop :=
  (exists a, m = Ret a) \/ (exists r, m = Throw r).

Definition sample_new_project : NewProject.t :=
  NewProject.mk "ana" "Site" "ana/site" "main".

Definition sample_second_project : NewProject.t :=
  NewProject.mk "ana" "A longer title" "ana/notes" "main".

Definition sample_locale : Locale :=
  Build_Locale (fun a b => (Z.of_nat (String.length a) - Z.of_nat (String.length b))%Z).

(** * Properties *)

(** ** Arrays of objects *)

Lemma indexOf_from_lookup {A : Type} (l : list (Obj A)) (x : Obj A) (k : Z) (i : nat) :
  NoDup (map oid l) -> l !! i = Some x -> indexOf_from k l x = (k + Z.of_nat i)%Z.
Proof.
  revert k i. induction l as [|y l IH]; intros k i Hnd Hi; [done|].
  apply NoDup_cons in Hnd as [Hy Hnd]. destruct i as [|i]; simpl in *.
  - injection Hi as ->. rewrite Nat.eqb_refl. lia.
  - destruct (Nat.eqb_spec (oid y) (oid x)) as [Heq|_].
    + exfalso. apply Hy. rewrite Heq. apply list_elem_of_fmap.
      exists x. split; [done|]. by eapply list_elem_of_lookup_2.
    + rewrite (IH (k + 1)%Z i Hnd Hi). lia.
Qed.

Lemma indexOf_lookup {A : Type} (l : list (Obj A)) (x : Obj A) (i : nat) :
  NoDup (map oid l) -> l !! i = Some x -> indexOf l x = Z.of_nat i.
Proof. intros Hnd Hi. unfold indexOf. by rewrite (indexOf_from_lookup l x 0 i). Qed.

Lemma nth_js_of_nat {A : Type} (l : list A) (i : nat) : nth_js l (Z.of_nat i) = l !! i.
Proof.
  unfold nth_js. destruct (Z.ltb_spec (Z.of_nat i) 0); [lia|]. by rewrite Nat2Z.id.
Qed.

Lemma fresh_oids_from {A : Type} (l : list A) (k : nat) :
  map oid (imap (fun i x => mkObj (k + i) x) l) = seq k (length l).
Proof.
  revert k. induction l as [|x l IH]; intros k; [done|]. simpl. f_equal; [lia|].
  rewrite <- (IH (S k)). f_equal. apply imap_ext. intros i y _. simpl. f_equal. lia.
Qed.

Lemma fresh_oids {A : Type} (l : list A) : map oid (fresh l) = seq 0 (length l).
Proof. apply (fresh_oids_from l 0). Qed.

Lemma fresh_vals_from {A : Type} (l : list A) (g : nat -> nat) :
  map val (imap (fun i x => mkObj (g i) x) l) = l.
Proof.
  revert g. induction l as [|x l IH]; intros g; [done|].
  simpl. f_equal. apply (IH (fun i => g (S i))).
Qed.

Lemma fresh_vals {A : Type} (l : list A) : map val (fresh l) = l.
Proof. apply (fresh_vals_from l (fun i => i)). Qed.

Lemma NoDup_map_filter {A B : Type} (f : A -> B) (p : A -> bool) (l : list A) :
  NoDup (map f l) -> NoDup (map f (List.filter p l)).
Proof.
  induction l as [|x l IH]; simpl; [done|]. intros Hnd.
  apply NoDup_cons in Hnd as [Hx Hnd]. destruct (p x); simpl; [|by apply IH].
  apply NoDup_cons. split; [|by apply IH]. intros Hin. apply Hx.
  apply list_elem_of_fmap in Hin as (y & -> & Hy). apply list_elem_of_fmap.
  exists y. split; [done|]. apply list_elem_of_In in Hy. apply filter_In in Hy as [Hy _].
  by apply list_elem_of_In.
Qed.

Lemma fresh_filter_NoDup {A : Type} (p : Obj A -> bool) (l : list A) :
  NoDup (map oid (List.filter p (fresh l))).
Proof. apply NoDup_map_filter. rewrite fresh_oids. apply NoDup_seq. Qed.

(** ** The order builder *)

Lemma get_written (files : list (Obj CollectionFile.t)) (file : Obj CollectionFile.t)
    (k : string) :
  get (written_attributes files file) k
  = order_or_value files file k <$> get (CollectionFile.attributes (val file)) k.
Proof.
  unfold written_attributes.
  induction (CollectionFile.attributes (val file)) as [|[k' v] o IH]; [done|].
  simpl. destruct (String.eqb_spec k' k) as [->|_]; [done|]. apply IH.
Qed.

Lemma keys_written (files : list (Obj CollectionFile.t)) (file : Obj CollectionFile.t) :
  keys (written_attributes files file) = keys (CollectionFile.attributes (val file)).
Proof.
  unfold keys, written_attributes. rewrite map_map. apply map_ext. by intros [k v].
Qed.

Lemma get_written_other (files : list (Obj CollectionFile.t)) (file : Obj CollectionFile.t)
    (k : string) :
  k ≠ "order" ->
  get (written_attributes files file) k = get (CollectionFile.attributes (val file)) k.
Proof.
  intros Hk. rewrite get_written. unfold order_or_value.
  destruct (String.eqb_spec k "order"); [done|].
  by destruct (get (CollectionFile.attributes (val file)) k).
Qed.

Lemma serialize_render (files : list (Obj CollectionFile.t)) (file : Obj CollectionFile.t) :
  serialize files file
  = render (written_attributes files file) (CollectionFile.body (val file)).
Proof.
  unfold serialize, render, written_attributes. rewrite map_map.
  match goal with
  | |- join nl [_; join nl ?a; _; _; _] = join nl [_; join nl ?b; _; _; _] =>
      replace b with a; [done|]
  end.
  apply map_ext. by intros [k v].
Qed.

Lemma updateCollectionFileOrder_commit (token : string) (payload : UpdateOrderParams.t) :
  let files := UpdateOrderParams.files payload in
  updateCollectionFileOrder token payload
  = CommitAndPush token
      {| CommitParams.repo := UpdateOrderParams.repo payload;
         CommitParams.branch := UpdateOrderParams.branch payload;
         CommitParams.message :=
           "Updated order for files in " +:+ UpdateOrderParams.collectionRoute payload;
         CommitParams.files := map (change_of files) files |}
      Ret.
Proof.
  intros files. unfold updateCollectionFileOrder, commitAndPush. fold files.
  do 2 f_equal. apply list_eq. intros i.
  rewrite list_lookup_imap, !list_lookup_fmap.
  by destruct (_ !! i).
Qed.

Lemma run_single_commit {S : Type} (h : Handler S) (s : S) (token : string)
    (p : CommitParams.t) :
  Run.requests (run h (CommitAndPush token p Ret) s) = [ReqCommitAndPush token p].
Proof. simpl. unfold step. by destruct (on_commitAndPush h token p s) as [[e|c] s']. Qed.

(** C5. Whatever the provider and its state, a reorder issues exactly one
    request, a commit, with one change per document of the payload, in the
    order of the payload and at the path of the document; the text of each
    change is the document with the same attribute keys, the value of every
    attribute other than [order] as it was, and the same body. *)
Theorem updateCollectionFileOrder_single_commit {S : Type} (h : Handler S) (s : S)
    (token : string) (payload : UpdateOrderParams.t) :
  let files := UpdateOrderParams.files payload in
  exists p : CommitParams.t,
    Run.requests (run h (updateCollectionFileOrder token payload) s)
      = [ReqCommitAndPush token p]
    /\ length (CommitParams.files p) = length files
    /\ map FileChange.path (CommitParams.files p)
       = map (fun f => CollectionFile.path (val f)) files
    /\ map FileChange.content (CommitParams.files p)
       = map (fun f => Some (render (written_attributes files f)
                                    (CollectionFile.body (val f)))) files
    /\ Forall (fun f =>
         keys (written_attributes files f) = keys (CollectionFile.attributes (val f))
         /\ forall k, k ≠ "order" ->
              get (written_attributes files f) k
              = get (CollectionFile.attributes (val f)) k) files.
Proof.
  intros files. eexists. rewrite updateCollectionFileOrder_commit.
  split; [apply run_single_commit|]. simpl. fold files.
  split; [by rewrite length_map|].
  split; [by rewrite map_map|].
  split.
  - rewrite map_map. apply map_ext. intros f. simpl. by rewrite serialize_render.
  - apply Forall_forall. intros f _. split; [apply keys_written|].
    intros k Hk. by apply get_written_other.
Qed.

(** C1, as amended. When the documents of the payload are distinct objects,
    the text written for the document at position [i] is the document with
    its [order] attribute, if it has one, set to [i]; so when every document
    has an [order] attribute the values written are [0 .. n-1] in the order
    of the payload. *)
Theorem updateCollectionFileOrder_order_is_position (token : string)
    (payload : UpdateOrderParams.t) :
  let files := UpdateOrderParams.files payload in
  NoDup (map oid files) ->
  exists p : CommitParams.t,
    updateCollectionFileOrder token payload = CommitAndPush token p Ret
    /\ map FileChange.content (CommitParams.files p)
       = map (fun f => Some (render (written_attributes files f)
                                    (CollectionFile.body (val f)))) files
    /\ (forall (i : nat) f, files !! i = Some f ->
          is_Some (get (CollectionFile.attributes (val f)) "order") ->
          get (written_attributes files f) "order" = Some (VNum (Z.of_nat i)))
    /\ ((forall f, f ∈ files -> is_Some (get (CollectionFile.attributes (val f)) "order")) ->
          map (fun f => get (written_attributes files f) "order") files
          = map (fun i => Some (VNum (Z.of_nat i))) (seq 0 (length files))).
Proof.
  intros files Hnd.
  assert (Hpos : forall (i : nat) f, files !! i = Some f ->
            is_Some (get (CollectionFile.attributes (val f)) "order") ->
            get (written_attributes files f) "order" = Some (VNum (Z.of_nat i))).
  { intros i f Hi [v Hv]. rewrite get_written, Hv. simpl.
    unfold order_or_value. simpl. by rewrite (indexOf_lookup files f i). }
  eexists. split; [apply updateCollectionFileOrder_commit|]. simpl. fold files.
  split; [|split; [exact Hpos|]].
  - rewrite map_map. apply map_ext. intros f. simpl. by rewrite serialize_render.
  - intros Hall. apply list_eq. intros i. rewrite !list_lookup_fmap.
    destruct (files !! i) as [f|] eqn:Hf; simpl.
    + rewrite lookup_seq_lt by (by eapply lookup_lt_Some). simpl.
      f_equal. apply (Hpos i f Hf). apply Hall. by eapply list_elem_of_lookup_2.
    + rewrite lookup_seq_ge; [done|]. by apply lookup_ge_None.
Qed.

Lemma updateCollectionFileOrder_order_is_position_witness :
  exists p : CommitParams.t,
    updateCollectionFileOrder "t"
      (UpdateOrderParams.mk "r" "main" "posts"
         [sample_ordered 0 2 "c"; sample_ordered 1 0 "a"]) = CommitAndPush "t" p Ret
    /\ map FileChange.content (CommitParams.files p)
       = [ Some (join nl ["---"; "title: c"; "order: 0"; "---"; ""; "About c"]);
           Some (join nl ["---"; "title: a"; "order: 1"; "---"; ""; "About a"]) ].
Proof.
  destruct (updateCollectionFileOrder_order_is_position "t"
              (UpdateOrderParams.mk "r" "main" "posts"
                 [sample_ordered 0 2 "c"; sample_ordered 1 0 "a"]))
    as (p & Hp & Hc & _).
  - apply (bool_decide_unpack _). vm_compute. exact I.
  - exists p. split; [exact Hp|]. rewrite Hc. reflexivity.
Defined.

(** C1, as stated, fails on a document without an [order] attribute: the
    text written for it has no [order] line. It also fails when the same
    object occurs twice: both occurrences get the first position. *)
Lemma updateCollectionFileOrder_order_counterexample :
  let untitled :=
    mkObj 0 (CollectionFile.mk "sha-a" (VStr "a") "posts/a.md" [("title", VStr "a")] "text") in
  let twice := sample_ordered 0 5 "b" in
  [untitled] !! 0%nat = Some untitled
  /\ serialize [untitled] untitled = join nl ["---"; "title: a"; "---"; ""; "text"]
  /\ get (written_attributes [untitled] untitled) "order" = None
  /\ [twice; twice] !! 1%nat = Some twice
  /\ get (written_attributes [twice; twice] twice) "order" = Some (VNum 0).
Proof. repeat split. Qed.

(** C10. A document whose attribute map is empty is rewritten with an empty
    block between two marker lines, a blank line and its body. *)
Theorem updateCollectionFileOrder_empty_block (token : string)
    (payload : UpdateOrderParams.t) (i : nat) (f : Obj CollectionFile.t) :
  UpdateOrderParams.files payload !! i = Some f ->
  CollectionFile.attributes (val f) = [] ->
  exists p : CommitParams.t,
    updateCollectionFileOrder token payload = CommitAndPush token p Ret
    /\ FileChange.content <$> (CommitParams.files p !! i)
       = Some (Some ("---" +:+ nl +:+ nl +:+ "---" +:+ nl +:+ nl
                       +:+ CollectionFile.body (val f))).
Proof.
  intros Hi Hempty. eexists. split; [apply updateCollectionFileOrder_commit|].
  simpl. rewrite list_lookup_fmap, Hi. simpl. do 2 f_equal.
  unfold serialize. by rewrite Hempty.
Qed.

Lemma updateCollectionFileOrder_empty_block_witness :
  exists p : CommitParams.t,
    updateCollectionFileOrder "t"
      (UpdateOrderParams.mk "r" "main" "posts"
         [mkObj 0 (CollectionFile.mk "sha" (VStr "a.md") "posts/a.md" [] "Hello")])
      = CommitAndPush "t" p Ret
    /\ FileChange.content <$> (CommitParams.files p !! 0%nat)
       = Some (Some ("---" +:+ nl +:+ nl +:+ "---" +:+ nl +:+ nl +:+ "Hello")).
Proof.
  exact (updateCollectionFileOrder_empty_block "t"
           (UpdateOrderParams.mk "r" "main" "posts"
              [mkObj 0 (CollectionFile.mk "sha" (VStr "a.md") "posts/a.md" [] "Hello")])
           0 _ eq_refl eq_refl).
Defined.

(** ** Running programs *)

Lemma run_bind {S A B : Type} (h : Handler S) (m : Prog A) (f : A -> Prog B) (s : S) :
  run h (m ≫= f) s
  = match Run.outcome (run h m s) with
    | inl e => Run.mk (inl e) (Run.final (run h m s)) (Run.requests (run h m s))
    | inr a =>
        Run.mk (Run.outcome (run h (f a) (Run.final (run h m s))))
               (Run.final (run h (f a) (Run.final (run h m s))))
               (Run.requests (run h m s) ++ Run.requests (run h (f a) (Run.final (run h m s))))
    end.
Proof.
  unfold mbind, prog_bind. revert s.
  induction m as [a|r|t r b k IH|t p k IH|t p k IH|t p k IH]; intros s; simpl.
  - by destruct (run h (f a) s).
  - done.
  - unfold step. destruct (on_getRepoFiles h t r b s) as [[e|x] s']; simpl; [done|].
    rewrite IH. by destruct (Run.outcome (run h (k x) s')).
  - unfold step. destruct (on_getFileContent h t p s) as [[e|x] s']; simpl; [done|].
    rewrite IH. by destruct (Run.outcome (run h (k x) s')).
  - unfold step. destruct (on_saveFile h t p s) as [[e|x] s']; simpl; [done|].
    rewrite IH. by destruct (Run.outcome (run h (k x) s')).
  - unfold step. destruct (on_commitAndPush h t p s) as [[e|x] s']; simpl; [done|].
    rewrite IH. by destruct (Run.outcome (run h (k x) s')).
Qed.

Lemma run_Promise_all_snapshot {X : Type} (tree : list TreeItem.t)
    (fetch : string -> option ParsedFile.t) (token : string)
    (params : X -> GetFileParams.t) (l : list X) :
  run (snapshot tree fetch)
      (Promise_all (map (fun x => getFileContent token (params x)) l)) tt
  = Run.mk (inr (map (fun x => fetch (GetFileParams.file (params x))) l)) tt
           (map (fun x => ReqGetFileContent token (params x)) l).
Proof.
  induction l as [|x l IH]; [done|].
  cbn [map Promise_all]. rewrite run_bind. cbn [getFileContent run step snapshot
    on_getFileContent Run.outcome Run.final Run.requests].
  rewrite run_bind, IH. simpl. by rewrite ?app_nil_r.
Qed.

Lemma for_push_pure {A B : Type} (body : A -> Prog B) (g : A -> B) (l : list A)
    (acc : list B) :
  (forall x, x ∈ l -> body x = Ret (g x)) ->
  for_push l body acc = Ret (acc ++ map g l)%list.
Proof.
  revert acc. induction l as [|x l IH]; intros acc Hbody; simpl.
  - by rewrite app_nil_r.
  - rewrite (Hbody x) by (apply elem_of_cons; by left). unfold mbind, prog_bind. simpl.
    rewrite IH by (intros y Hy; apply Hbody, elem_of_cons; by right).
    by rewrite <- app_assoc.
Qed.

Lemma for_push_throw {A B : Type} (body : A -> Prog B) (g : A -> B)
    (l1 l2 : list A) (x : A) (r : Response.t) (acc : list B) :
  (forall y, y ∈ l1 -> body y = Ret (g y)) ->
  body x = Throw r ->
  for_push (l1 ++ x :: l2)%list body acc = Throw r.
Proof.
  revert acc. induction l1 as [|y l1 IH]; intros acc Hbody Hx; simpl.
  - by rewrite Hx.
  - rewrite (Hbody y) by (apply elem_of_cons; by left). unfold mbind, prog_bind. simpl.
    apply IH; [|done]. intros z Hz. apply Hbody, elem_of_cons. by right.
Qed.

(** The first element without a value, if there is one. *)
Lemma first_missing {A B : Type} (f : A -> option B) (l : list A) :
  (exists x, x ∈ l /\ f x = None) ->
  exists l1 x l2, l = (l1 ++ x :: l2)%list /\ f x = None /\ forall y, y ∈ l1 -> is_Some (f y).
Proof.
  induction l as [|a l IH]; intros (x & Hx & Hfx).
  - by apply elem_of_nil in Hx.
  - destruct (f a) as [b|] eqn:Hfa.
    + destruct IH as (l1 & x' & l2 & -> & Hx' & Hl1).
      { exists x. split; [|done]. apply elem_of_cons in Hx as [->|Hx]; [congruence|done]. }
      exists (a :: l1), x', l2. split; [done|]. split; [done|].
      intros y Hy. apply elem_of_cons in Hy as [->|Hy]; [by rewrite Hfa|by apply Hl1].
    + exists [], a, l. split; [done|]. split; [done|]. intros y Hy. by apply elem_of_nil in Hy.
Qed.

(** ** Sorting *)

Section Sorting.
Context {A : Type} (comparefn : A -> A -> option Z).

Local Abbreviation ordered := (fun a b : A => (SortCompare comparefn a b <= 0)%Z).
Local Abbreviation le a b := (SortCompare comparefn a b <= 0)%Z.
Local Abbreviation same a b := (SortCompare comparefn a b = 0%Z).
Local Abbreviation same_as x := (fun y : A => SortCompare comparefn x y = 0%Z).

Lemma insert_sorted_perm (x : A) (l : list A) :
  Permutation (insert_sorted comparefn x l) (x :: l).
Proof.
  induction l as [|y l IH]; simpl; [done|].
  destruct (SortCompare comparefn x y <=? 0)%Z; [done|].
  rewrite IH. apply perm_swap.
Qed.

Lemma stable_sort_perm (l : list A) : Permutation (stable_sort comparefn l) l.
Proof.
  induction l as [|x l IH]; simpl; [done|].
  rewrite insert_sorted_perm. by apply perm_skip.
Qed.

(** Stability: a class of elements that the comparator never orders
    strictly keeps its order. *)
Lemma insert_sorted_filter (P : A -> Prop) `{!forall x, Decision (P x)} (x : A) (l : list A) :
  (forall b, b ∈ l -> P x -> P b -> (SortCompare comparefn x b <= 0)%Z) ->
  filter P (insert_sorted comparefn x l) = filter P (x :: l).
Proof.
  intros Hclass. induction l as [|y l IH]; simpl; [done|].
  destruct (Z.leb_spec (SortCompare comparefn x y) 0) as [_|Hgt]; [done|].
  rewrite (filter_cons P y), IH, !(filter_cons P x), (filter_cons P y).
  - destruct (decide (P x)) as [Hx|Hx], (decide (P y)) as [Hy|Hy]; try done.
    specialize (Hclass y (list_elem_of_here y l) Hx Hy). lia.
  - intros b Hb. apply Hclass. by apply list_elem_of_further.
Qed.

Lemma stable_sort_filter (P : A -> Prop) `{!forall x, Decision (P x)} (l : list A) :
  (forall a b, a ∈ l -> b ∈ l -> P a -> P b -> (SortCompare comparefn a b <= 0)%Z) ->
  filter P (stable_sort comparefn l) = filter P l.
Proof.
  induction l as [|x l IH]; intros Hclass; simpl; [done|].
  rewrite insert_sorted_filter.
  - rewrite !filter_cons, IH; [done|].
    intros a b Ha Hb. apply Hclass; by apply list_elem_of_further.
  - intros b Hb. apply Hclass; [apply list_elem_of_here|].
    apply list_elem_of_further. by rewrite <- (stable_sort_perm l).
Qed.

(** What a consistent comparator gives on the elements of the list. *)
Lemma Consistent_subset (l l' : list A) :
  (forall x, x ∈ l' -> x ∈ l) -> Consistent comparefn l -> Consistent comparefn l'.
Proof. intros Hsub Hc a b c Ha Hb Hc'. apply Hc; by apply Hsub. Qed.

Lemma Consistent_refl (l : list A) (a : A) :
  Consistent comparefn l -> a ∈ l -> same a a.
Proof. intros Hc Ha. by destruct (Hc a a a Ha Ha Ha) as (_ & ? & _). Qed.

(** Less-than and greater-than mirror each other. *)
Lemma Consistent_mirror (l : list A) (a b : A) :
  Consistent comparefn l -> a ∈ l -> b ∈ l ->
  ((SortCompare comparefn a b < 0)%Z -> (0 < SortCompare comparefn b a)%Z)
  /\ ((0 < SortCompare comparefn a b)%Z -> (SortCompare comparefn b a < 0)%Z).
Proof.
  intros Hc Ha Hb.
  destruct (Hc a b a Ha Hb Ha) as (_ & Haa & _ & _ & Hlt & Hgt).
  destruct (Hc b a b Hb Ha Hb) as (_ & _ & Hsym & _).
  lia.
Qed.

Lemma Consistent_total (l : list A) (a b : A) :
  Consistent comparefn l -> a ∈ l -> b ∈ l -> le a b \/ le b a.
Proof.
  intros Hc Ha Hb. destruct (Consistent_mirror l a b Hc Ha Hb) as [_ Hgt]. lia.
Qed.

Lemma Consistent_antisym (l : list A) (a b : A) :
  Consistent comparefn l -> a ∈ l -> b ∈ l -> le a b -> le b a -> same a b.
Proof.
  intros Hc Ha Hb Hab Hba. destruct (Consistent_mirror l a b Hc Ha Hb) as [Hlt _]. lia.
Qed.

Lemma Consistent_trans (l : list A) (a b c : A) :
  Consistent comparefn l -> a ∈ l -> b ∈ l -> c ∈ l -> le a b -> le b c -> le a c.
Proof.
  intros Hc Ha Hb Hc' Hab Hbc.
  destruct (Hc a b c Ha Hb Hc') as (_ & _ & Hsym_ab & Heq_abc & Hlt_abc & _).
  destruct (Hc b c a Hb Hc' Ha) as (_ & _ & Hsym_bc & Heq_bca & Hlt_bca & _).
  destruct (Hc c a b Hc' Ha Hb) as (_ & _ & Hsym_ca & Heq_cab & Hlt_cab & _).
  destruct (Hc a c b Ha Hc' Hb) as (_ & _ & Hsym_ac & _).
  destruct (Consistent_mirror l a b Hc Ha Hb) as [Hmir_ab _].
  destruct (Consistent_mirror l a c Hc Ha Hc') as [_ Hmir_ac].
  destruct (Consistent_mirror l b c Hc Hb Hc') as [Hmir_bc _].
  lia.
Qed.

Lemma Consistent_same (l : list A) (x a b : A) :
  Consistent comparefn l -> x ∈ l -> a ∈ l -> b ∈ l -> same x a -> same x b -> same a b.
Proof.
  intros Hc Hx Ha Hb Hxa Hxb.
  destruct (Hc x a b Hx Ha Hb) as (_ & _ & Hsym & _).
  destruct (Hc a x b Ha Hx Hb) as (_ & _ & _ & Htrans & _).
  by apply Htrans; [apply Hsym|].
Qed.

Lemma insert_sorted_sorted (x : A) (l : list A) :
  Consistent comparefn (x :: l) ->
  StronglySorted ordered l -> StronglySorted ordered (insert_sorted comparefn x l).
Proof.
  intros Hc Hsorted. induction l as [|y l IH]; simpl.
  - repeat constructor.
  - apply StronglySorted_inv in Hsorted as [Hsorted Hy].
    assert (Hx' : x ∈ x :: y :: l) by apply list_elem_of_here.
    assert (Hy' : y ∈ x :: y :: l) by apply list_elem_of_further, list_elem_of_here.
    destruct (Z.leb_spec (SortCompare comparefn x y) 0) as [Hle|Hgt].
    + apply SSorted_cons; [by apply SSorted_cons|].
      apply Forall_cons. split; [done|].
      apply Forall_forall. intros z Hz.
      apply (Consistent_trans (x :: y :: l) x y z); try done.
      * by do 2 apply list_elem_of_further.
      * by apply (proj1 (Forall_forall _ _) Hy).
    + apply SSorted_cons.
      * apply IH; [|done]. apply (Consistent_subset (x :: y :: l)); [|done].
        intros z Hz. apply elem_of_cons in Hz as [->|Hz]; [done|].
        by do 2 apply list_elem_of_further.
      * rewrite insert_sorted_perm. apply Forall_cons. split; [|done].
        destruct (Consistent_total (x :: y :: l) x y Hc Hx' Hy'); [lia|done].
Qed.

Lemma stable_sort_sorted (l : list A) :
  Consistent comparefn l -> StronglySorted ordered (stable_sort comparefn l).
Proof.
  induction l as [|x l IH]; intros Hc; simpl; [constructor|].
  apply insert_sorted_sorted.
  - apply (Consistent_subset (x :: l)); [|done].
    intros z Hz. by rewrite (stable_sort_perm l) in Hz.
  - apply IH. apply (Consistent_subset (x :: l)); [|done].
    intros z Hz. by apply list_elem_of_further.
Qed.

Lemma stable_sort_stable (l : list A) (x : A) :
  Consistent comparefn l -> x ∈ l ->
  filter (same_as x) (stable_sort comparefn l) = filter (same_as x) l.
Proof.
  intros Hc Hx. apply stable_sort_filter. intros a b Ha Hb Hxa Hxb.
  assert (same a b) by (by apply (Consistent_same l x)). lia.
Qed.

(** For a consistent comparator there is one sorted and stable order. *)
Lemma sorted_stable_unique (r1 r2 : list A) :
  Consistent comparefn r1 -> Permutation r2 r1 ->
  StronglySorted ordered r1 -> StronglySorted ordered r2 ->
  (forall x, x ∈ r1 -> filter (same_as x) r1 = filter (same_as x) r2) ->
  r1 = r2.
Proof.
  revert r2. induction r1 as [|x r1 IH]; intros r2 Hc Hperm Hs1 Hs2 Hst.
  - by apply Permutation_nil_r in Hperm.
  - destruct r2 as [|y r2].
    { symmetry in Hperm. by apply Permutation_nil_r in Hperm. }
    assert (Hx : x ∈ x :: r1) by apply list_elem_of_here.
    assert (Hy : y ∈ x :: r1) by (rewrite <- Hperm; apply list_elem_of_here).
    apply StronglySorted_inv in Hs1 as [Hs1 Hx1].
    apply StronglySorted_inv in Hs2 as [Hs2 Hy2].
    assert (Hxx : same x x) by (by apply (Consistent_refl (x :: r1))).
    assert (Hxy : same x y).
    { apply (Consistent_antisym (x :: r1)); try done.
      - apply elem_of_cons in Hy as [->|Hy]; [lia|].
        by apply (proj1 (Forall_forall _ _) Hx1).
      - assert (Hx2 : x ∈ y :: r2) by (by rewrite Hperm).
        apply elem_of_cons in Hx2 as [->|Hx2]; [lia|].
        by apply (proj1 (Forall_forall _ _) Hy2). }
    pose proof (Hst x Hx) as Hhead. rewrite !filter_cons in Hhead.
    rewrite decide_True in Hhead by done.
    rewrite (decide_True (P := same x y)) in Hhead by done.
    injection Hhead as <- _.
    f_equal. apply IH; try done.
    + apply (Consistent_subset (x :: r1)); [|done].
      intros z Hz. by apply list_elem_of_further.
    + by apply Permutation_cons_inv in Hperm.
    + intros z Hz. specialize (Hst z (list_elem_of_further _ _ _ Hz)).
      rewrite !filter_cons in Hst. destruct (decide (same z x)); [by injection Hst|done].
Qed.

End Sorting.

(** The engine that sorts by insertion keeps the contract of the language. *)
Section InsertionEngine.
Context {A E : Type} (comparefn : A -> A -> E + option Z).

Lemma insert_sorted_with_perm (x : A) (l r : list A) :
  insert_sorted_with comparefn x l = inr r -> Permutation r (x :: l).
Proof.
  revert r. induction l as [|y l IH]; intros r; simpl; [by intros [= <-]|].
  destruct (comparefn x y) as [e|v]; [done|].
  destruct (_ <=? 0)%Z; [by intros [= <-]|].
  destruct (insert_sorted_with comparefn x l) as [e|r']; [done|]. intros [= <-].
  rewrite (IH r' eq_refl). apply perm_swap.
Qed.

Lemma insertion_sort_with_perm (l r : list A) :
  insertion_sort_with comparefn l = inr r -> Permutation r l.
Proof.
  revert r. induction l as [|x l IH]; intros r; simpl; [by intros [= <-]|].
  destruct (insertion_sort_with comparefn l) as [e|r']; [done|]. intros Hr.
  rewrite (insert_sorted_with_perm x r' r Hr). by apply perm_skip, IH.
Qed.

Lemma insert_sorted_with_abrupt (x : A) (l : list A) (e : E) :
  insert_sorted_with comparefn x l = inl e -> exists b, b ∈ l /\ comparefn x b = inl e.
Proof.
  induction l as [|y l IH]; simpl; [done|].
  destruct (comparefn x y) as [e'|v] eqn:Hxy.
  - intros [= <-]. exists y. split; [apply list_elem_of_here|done].
  - destruct (_ <=? 0)%Z; [done|].
    destruct (insert_sorted_with comparefn x l) as [e'|r']; [|done]. intros [= <-].
    destruct (IH eq_refl) as (b & Hb & Hcall). exists b.
    split; [by apply list_elem_of_further|done].
Qed.

Lemma insertion_sort_with_abrupt (l : list A) (e : E) :
  insertion_sort_with comparefn l = inl e ->
  exists a b, a ∈ l /\ b ∈ l /\ comparefn a b = inl e.
Proof.
  induction l as [|x l IH]; simpl; [done|].
  destruct (insertion_sort_with comparefn l) as [e'|r'] eqn:Hl.
  - intros [= <-]. destruct (IH eq_refl) as (a & b & Ha & Hb & Hcall).
    exists a, b. by repeat split; try apply list_elem_of_further.
  - intros Hx. destruct (insert_sorted_with_abrupt x r' e Hx) as (b & Hb & Hcall).
    exists x, b. split; [apply list_elem_of_here|]. split; [|done].
    apply list_elem_of_further. by rewrite <- (insertion_sort_with_perm l r' Hl).
Qed.

Lemma insert_sorted_with_pure (c : A -> A -> option Z) (x : A) (l : list A) :
  (forall b, b ∈ l -> comparefn x b = inr (c x b)) ->
  insert_sorted_with comparefn x l = inr (insert_sorted c x l).
Proof.
  induction l as [|y l IH]; intros Hpure; simpl; [done|].
  rewrite (Hpure y (list_elem_of_here y l)). fold (SortCompare c x y).
  destruct (SortCompare c x y <=? 0)%Z; [done|].
  rewrite IH; [done|]. intros b Hb. by apply Hpure, list_elem_of_further.
Qed.

Lemma insertion_sort_with_pure (c : A -> A -> option Z) (l : list A) :
  (forall a b, a ∈ l -> b ∈ l -> comparefn a b = inr (c a b)) ->
  insertion_sort_with comparefn l = inr (stable_sort c l).
Proof.
  induction l as [|x l IH]; intros Hpure; simpl; [done|].
  rewrite IH by (intros a b Ha Hb; by apply Hpure; apply list_elem_of_further).
  apply insert_sorted_with_pure. intros b Hb.
  apply Hpure; [apply list_elem_of_here|].
  apply list_elem_of_further. by rewrite <- (stable_sort_perm c l).
Qed.

Lemma insertion_sort_with_consistent (c : A -> A -> option Z) (l r : list A) :
  (forall a b, a ∈ l -> b ∈ l -> comparefn a b = inr (c a b)) ->
  Consistent c l ->
  insertion_sort_with comparefn l = inr r ->
  StronglySorted (fun a b => (SortCompare c a b <= 0)%Z) r
  /\ (forall x, x ∈ l ->
        filter (fun y => SortCompare c x y = 0%Z) r
        = filter (fun y => SortCompare c x y = 0%Z) l).
Proof.
  intros Hpure Hc. rewrite (insertion_sort_with_pure c l Hpure). intros [= <-].
  split; [by apply stable_sort_sorted|]. intros x Hx. by apply stable_sort_stable.
Qed.

End InsertionEngine.

Definition insertion_engine : ArraySort :=
  {| sort_with := @insertion_sort_with;
     sort_with_permutation := @insertion_sort_with_perm;
     sort_with_abrupt := @insertion_sort_with_abrupt;
     sort_with_consistent := @insertion_sort_with_consistent |}.

(** What the contract gives for every engine. *)
Section AnyEngine.
Context `{ArraySort} {A : Type}.

Lemma sort_perm (comparefn : A -> A -> option Z) (l : list A) :
  Permutation (sort comparefn l) l.
Proof.
  unfold sort. destruct (sort_with _ l) as [[]|r] eqn:Hr.
  by apply sort_with_permutation in Hr.
Qed.

Lemma sort_length (comparefn : A -> A -> option Z) (l : list A) :
  length (sort comparefn l) = length l.
Proof. apply Permutation_length, sort_perm. Qed.

Lemma sort_nil (comparefn : A -> A -> option Z) : sort comparefn [] = [].
Proof. apply Permutation_nil_r, sort_perm. Qed.

(** A comparator that does not throw on the elements gives a result. *)
Lemma sort_with_returns {E : Type} (comparefn : A -> A -> E + option Z)
    (c : A -> A -> option Z) (l : list A) :
  (forall a b, a ∈ l -> b ∈ l -> comparefn a b = inr (c a b)) ->
  exists r, sort_with comparefn l = inr r /\ Permutation r l.
Proof.
  intros Hpure. destruct (sort_with comparefn l) as [e|r] eqn:Hr.
  - apply sort_with_abrupt in Hr as (a & b & Ha & Hb & Hcall).
    by rewrite (Hpure a b Ha Hb) in Hcall.
  - exists r. split; [done|]. by apply sort_with_permutation in Hr.
Qed.

(** A consistent comparator that does not throw gives the stable order. *)
Lemma sort_with_stable_sort {E : Type} (comparefn : A -> A -> E + option Z)
    (c : A -> A -> option Z) (l : list A) :
  (forall a b, a ∈ l -> b ∈ l -> comparefn a b = inr (c a b)) ->
  Consistent c l ->
  sort_with comparefn l = inr (stable_sort c l).
Proof.
  intros Hpure Hc. destruct (sort_with_returns comparefn c l Hpure) as (r & Hr & Hperm).
  rewrite Hr. f_equal.
  destruct (sort_with_consistent comparefn c l r Hpure Hc Hr) as [Hsorted Hstable].
  apply (sorted_stable_unique c).
  - apply (Consistent_subset c l); [|done]. intros x Hx. by rewrite <- Hperm.
  - by rewrite stable_sort_perm.
  - done.
  - by apply stable_sort_sorted.
  - intros x Hx. rewrite Hperm in Hx.
    by rewrite Hstable, stable_sort_stable.
Qed.

Lemma sort_stable_sort (comparefn : A -> A -> option Z) (l : list A) :
  Consistent comparefn l -> sort comparefn l = stable_sort comparefn l.
Proof.
  intros Hc. unfold sort.
  by rewrite (sort_with_stable_sort (E := Empty_set) _ comparefn l).
Qed.

End AnyEngine.

(** ** The collection loader *)

Section Loader.
Context `{PathUtils} `{FrontMatter} `{Builtins} `{ArraySort}.
Variables (token : string) (project : Project.t) (collection : ProjectCollection.t).
Variables (tree : list TreeItem.t) (fetch : string -> option ParsedFile.t).

Local Abbreviation selected := (List.filter (in_collection collection) (fresh tree)).
Local Abbreviation contents := (map (fun f : Obj TreeItem.t => fetch (TreeItem.path (val f))) selected).
Local Abbreviation loaded :=
  (run (snapshot tree fetch) (getCollectionFiles token project collection) tt).

Local Abbreviation loop_body := (parse_or_throw selected contents).

Lemma parse_or_throw_fetch (f : Obj TreeItem.t) :
  f ∈ selected ->
  loop_body f
  = match fetch (TreeItem.path (val f)) with
    | Some fileContent => Ret (processFileContent fileContent)
    | None => Throw (not_found f)
    end.
Proof.
  intros Hf. apply list_elem_of_lookup_1 in Hf as [i Hi]. unfold parse_or_throw.
  rewrite (indexOf_lookup _ f i (fresh_filter_NoDup _ _) Hi), nth_js_of_nat.
  rewrite list_lookup_fmap, Hi. simpl. by destruct (fetch _).
Qed.

Lemma getCollectionFiles_outcome :
  Run.outcome loaded
  = Run.outcome (run (snapshot tree fetch)
                     (for_push selected loop_body [] ≫=
                        fun parsedFiles => mret (sort by_order parsedFiles)) tt).
Proof.
  unfold getCollectionFiles. rewrite run_bind. simpl.
  rewrite run_bind, run_Promise_all_snapshot. simpl.
  by destruct (run _ _ _).
Qed.

Lemma getCollectionFiles_loaded (files : list ParsedFile.t) :
  contents = map Some files ->
  Run.outcome loaded = inr (sort by_order (map processFileContent files)).
Proof.
  intros Hfiles. rewrite getCollectionFiles_outcome.
  pose (g := fun f : Obj TreeItem.t =>
          match fetch (TreeItem.path (val f)) with
          | Some fileContent => processFileContent fileContent
          | None => processFileContent (ParsedFile.mk "" "" "")
          end).
  assert (Hpresent : forall f, f ∈ selected -> is_Some (fetch (TreeItem.path (val f)))).
  { intros f Hf. apply list_elem_of_lookup_1 in Hf as [i Hi].
    assert (Hc : contents !! i = Some (fetch (TreeItem.path (val f)))).
    { by rewrite list_lookup_fmap, Hi. }
    rewrite Hfiles, list_lookup_fmap in Hc.
    destruct (files !! i) as [fc|]; [|done]. injection Hc as <-. by eexists. }
  rewrite (for_push_pure loop_body g).
  - simpl. do 2 f_equal.
    transitivity (map (fun o : option ParsedFile.t =>
                         match o with
                         | Some fileContent => processFileContent fileContent
                         | None => processFileContent (ParsedFile.mk "" "" "")
                         end) contents).
    + by rewrite map_map.
    + by rewrite Hfiles, map_map.
  - intros f Hf. rewrite (parse_or_throw_fetch f Hf). unfold g.
    by destruct (Hpresent f Hf) as [fc ->].
Qed.

Lemma getCollectionFiles_missing :
  (exists f, f ∈ selected /\ fetch (TreeItem.path (val f)) = None) ->
  exists f, f ∈ selected /\ fetch (TreeItem.path (val f)) = None
            /\ Run.outcome loaded = inl (Thrown (not_found f)).
Proof.
  intros Hmissing. rewrite getCollectionFiles_outcome.
  destruct (first_missing (fun f : Obj TreeItem.t => fetch (TreeItem.path (val f)))
              selected Hmissing) as (l1 & f & l2 & Hsplit & Hf & Hl1).
  assert (Hin : forall y, y ∈ (l1 ++ f :: l2)%list -> y ∈ selected) by (by rewrite Hsplit).
  exists f. split; [apply Hin, elem_of_app; right; apply elem_of_cons; by left|].
  split; [done|].
  pose (g := fun f : Obj TreeItem.t =>
          match fetch (TreeItem.path (val f)) with
          | Some fileContent => processFileContent fileContent
          | None => processFileContent (ParsedFile.mk "" "" "")
          end).
  rewrite Hsplit at 1.
  rewrite (for_push_throw loop_body g l1 l2 f (not_found f)); [done| |].
  - intros y Hy. rewrite parse_or_throw_fetch by (apply Hin, elem_of_app; by left).
    unfold g. by destruct (Hl1 y Hy) as [fc ->].
  - rewrite parse_or_throw_fetch by (apply Hin, elem_of_app; right; apply elem_of_cons; by left).
    by rewrite Hf.
Qed.

(** C3. Against a listing [tree] and a fetch function: when some selected
    entry has no content, the load fails with the 404 response that names
    the path of such an entry, and returns no list; when every selected
    entry has content, the load returns a list with one document per
    selected entry. *)
Theorem getCollectionFiles_all_or_nothing :
  ((exists f, f ∈ selected /\ fetch (TreeItem.path (val f)) = None) ->
     exists f, f ∈ selected /\ fetch (TreeItem.path (val f)) = None
       /\ Run.outcome loaded = inl (Thrown (not_found f))
       /\ Response.status (not_found f) = 404%Z
       /\ Response.body (not_found f)
          = "Content for file " +:+ dquote +:+ TreeItem.path (val f) +:+ dquote
              +:+ " was not found in github API")
  /\ ((forall f, f ∈ selected -> is_Some (fetch (TreeItem.path (val f)))) ->
        exists docs, Run.outcome loaded = inr docs /\ length docs = length selected).
Proof.
  split.
  - intros Hmissing. destruct (getCollectionFiles_missing Hmissing) as (f & Hf & Hnone & Hout).
    by exists f.
  - intros Hall.
    assert (Hfiles : exists files, contents = map Some files).
    { induction selected as [|f l IH]; [by exists []|].
      destruct IH as [files Hfiles].
      { intros y Hy. apply Hall, elem_of_cons. by right. }
      destruct (Hall f) as [fc Hfc]; [apply elem_of_cons; by left|].
      exists (fc :: files). simpl. by rewrite Hfc, Hfiles. }
    destruct Hfiles as [files Hfiles]. eexists. split; [by apply getCollectionFiles_loaded|].
    rewrite sort_length, length_map.
    transitivity (length (map Some files)); [by rewrite length_map|].
    by rewrite <- Hfiles, length_map.
Qed.

End Loader.

Section Order.
Context `{Builtins}.

Lemma SortCompare_by_order (a b : CollectionFile.t) (x y : Z) :
  order_of a = Some x -> order_of b = Some y ->
  SortCompare by_order a b = (x - y)%Z.
Proof. intros Ha Hb. unfold SortCompare, by_order. by rewrite Ha, Hb. Qed.

Lemma SortCompare_same_class (c : option Z) (a b : CollectionFile.t) :
  order_of a = c -> order_of b = c -> (SortCompare by_order a b <= 0)%Z.
Proof.
  intros Ha Hb. unfold SortCompare, by_order. rewrite Ha, Hb.
  destruct c; simpl; lia.
Qed.

Lemma order_le_trans (a b c : CollectionFile.t) :
  order_le a b -> order_le b c -> order_le a c.
Proof.
  unfold order_le.
  destruct (order_of a), (order_of b), (order_of c); try done. lia.
Qed.

Lemma by_order_numeric_consistent (l : list CollectionFile.t) :
  Forall (fun d => is_Some (order_of d)) l -> Consistent by_order l.
Proof.
  intros Hall a b c Ha Hb Hc.
  destruct (proj1 (Forall_forall _ _) Hall a Ha) as [x Hx].
  destruct (proj1 (Forall_forall _ _) Hall b Hb) as [y Hy].
  destruct (proj1 (Forall_forall _ _) Hall c Hc) as [z Hz].
  rewrite (SortCompare_by_order a a x x), (SortCompare_by_order a b x y),
    (SortCompare_by_order b a y x), (SortCompare_by_order b c y z),
    (SortCompare_by_order a c x z) by done.
  split; [unfold by_order; rewrite Hx, Hy; by eexists|]. lia.
Qed.

Lemma insert_sorted_by_order (x : CollectionFile.t) (l : list CollectionFile.t) :
  is_Some (order_of x) ->
  Forall (fun d => is_Some (order_of d)) l ->
  StronglySorted order_le l ->
  StronglySorted order_le (insert_sorted by_order x l).
Proof.
  intros [a Ha] Hall Hsorted. induction l as [|y l IH]; simpl.
  - repeat constructor.
  - apply Forall_cons in Hall as [[b Hb] Hall].
    apply StronglySorted_inv in Hsorted as [Hsorted Hy].
    rewrite (SortCompare_by_order x y a b Ha Hb).
    destruct (Z.leb_spec (a - b) 0) as [Hle|Hgt].
    + assert (Hxy : order_le x y) by (unfold order_le; rewrite Ha, Hb; lia).
      apply SSorted_cons; [by apply SSorted_cons|].
      apply Forall_cons. split; [done|].
      eapply Forall_impl; [exact Hy|]. intros z Hz. by eapply order_le_trans.
    + apply SSorted_cons; [by apply IH|].
      rewrite insert_sorted_perm. apply Forall_cons. split; [|done].
      unfold order_le. rewrite Ha, Hb. lia.
Qed.

Lemma stable_sort_by_order_sorted (l : list CollectionFile.t) :
  Forall (fun d => is_Some (order_of d)) l ->
  StronglySorted order_le (stable_sort by_order l).
Proof.
  induction l as [|x l IH]; intros Hall; simpl; [constructor|].
  apply Forall_cons in Hall as [Hx Hall].
  apply insert_sorted_by_order; [done| |by apply IH].
  by rewrite stable_sort_perm.
Qed.

Lemma stable_sort_by_order_stable (c : option Z) (l : list CollectionFile.t) :
  filter (fun d => order_of d = c) (stable_sort by_order l)
  = filter (fun d => order_of d = c) l.
Proof. apply stable_sort_filter. intros a b _ _. apply SortCompare_same_class. Qed.

End Order.

(** C4, as amended. The loader returns the documents, parsed in fetch
    order, as [Array.prototype.sort] orders them with the comparator
    [a.attributes.order - b.attributes.order]. Whatever the engine, the
    result is a permutation of the parsed documents. When every document has
    a numeric [order], the comparator is consistent for them, and the
    result is in ascending numeric order with the documents of a given
    [order] in fetch order; it is the stable order whenever the comparator
    is consistent. Orders [2, 0, 1] at paths [c, a, b] give [a, b, c].
    Nothing is said of a list in which some document has no numeric
    [order]: the comparator answers [NaN] there, and the order is the
    engine's choice. *)
Theorem getCollectionFiles_sorted_by_order
    `{PathUtils} `{FrontMatter} `{Builtins} `{ArraySort} :
  (forall token project collection tree fetch (files : list ParsedFile.t),
      map (fun f : Obj TreeItem.t => fetch (TreeItem.path (val f)))
          (List.filter (in_collection collection) (fresh tree)) = map Some files ->
      Run.outcome (run (snapshot tree fetch) (getCollectionFiles token project collection) tt)
      = inr (sort by_order (map processFileContent files)))
  /\ (forall docs, Permutation (sort by_order docs) docs)
  /\ (forall docs, Forall (fun d => is_Some (order_of d)) docs ->
        StronglySorted order_le (sort by_order docs)
        /\ (forall c : Z,
              filter (fun d => order_of d = Some c) (sort by_order docs)
              = filter (fun d => order_of d = Some c) docs))
  /\ (forall docs, Forall (fun d => is_Some (order_of d)) docs -> Consistent by_order docs)
  /\ (forall docs, Consistent by_order docs ->
        sort by_order docs = stable_sort by_order docs)
  /\ (let doc := fun order path =>
        CollectionFile.mk path (VStr path) path [("order", VNum order)] "" in
      map CollectionFile.path (sort by_order [doc 2%Z "c"; doc 0%Z "a"; doc 1%Z "b"])
      = ["a"; "b"; "c"]).
Proof.
  split; [intros; by apply getCollectionFiles_loaded|].
  split; [intros; apply sort_perm|].
  split.
  { intros docs Hall. rewrite sort_stable_sort by (by apply by_order_numeric_consistent).
    split; [by apply stable_sort_by_order_sorted|].
    intros c. apply stable_sort_by_order_stable. }
  split; [apply by_order_numeric_consistent|].
  split; [intros docs; apply sort_stable_sort|].
  intros doc. rewrite sort_stable_sort; [reflexivity|].
  apply by_order_numeric_consistent. repeat constructor; by eexists.
Qed.

(** C4, as stated, fails on a document without an [order] between two
    documents that are out of order: the comparator answers [NaN] for it,
    which counts as equal. An engine may return the three documents as they
    were fetched, [2] before [1]; and no engine can return them in an
    order that is ascending and also keeps the fetch order of the documents
    that compare equal or miss an [order]. *)
Lemma getCollectionFiles_sort_counterexample :
  let doc := fun attributes path => CollectionFile.mk path (VStr path) path attributes "" in
  let builtins := Build_Builtins (fun _ => None) (fun _ => "{}") in
  let docs := [doc [("order", VNum 2)] "c"; doc [] "draft"; doc [("order", VNum 1)] "b"] in
  let before := fun (l : list CollectionFile.t) a b =>
    exists i j : nat, l !! i = Some a /\ l !! j = Some b /\ i < j in
  map (@order_of builtins) docs = [Some 2%Z; None; Some 1%Z]
  /\ @sort insertion_engine _ (@by_order builtins) docs = docs
  /\ ~ exists engine : ArraySort,
        let sorted := @sort engine _ (@by_order builtins) docs in
        (forall a b x y,
            a ∈ sorted -> b ∈ sorted ->
            @order_of builtins a = Some x -> @order_of builtins b = Some y ->
            (x < y)%Z -> before sorted a b)
        /\ (forall a b,
              before docs a b -> SortCompare (@by_order builtins) a b = 0%Z ->
              before sorted a b).
Proof.
  intros doc builtins docs before.
  split; [reflexivity|]. split; [reflexivity|].
  intros (engine & Hascending & Hstable). unfold before in *. clear before.
  set (sorted := @sort engine _ (@by_order builtins) docs) in *.
  assert (Hperm : Permutation sorted docs) by apply sort_perm.
  assert (Hnd : NoDup sorted).
  { rewrite Hperm. unfold docs. repeat constructor.
    - intros Hin. repeat (apply elem_of_cons in Hin as [Hin|Hin]; [discriminate|]).
      by apply elem_of_nil in Hin.
    - intros Hin. repeat (apply elem_of_cons in Hin as [Hin|Hin]; [discriminate|]).
      by apply elem_of_nil in Hin.
    - intros Hin. by apply elem_of_nil in Hin. }
  destruct (Hstable (doc [("order", VNum 2)] "c") (doc [] "draft"))
    as (i1 & j1 & Hi1 & Hj1 & H1); [exists 0, 1; repeat split; lia|reflexivity|].
  destruct (Hstable (doc [] "draft") (doc [("order", VNum 1)] "b"))
    as (i2 & j2 & Hi2 & Hj2 & H2); [exists 1, 2; repeat split; lia|reflexivity|].
  destruct (Hascending (doc [("order", VNum 1)] "b") (doc [("order", VNum 2)] "c") 1%Z 2%Z)
    as (i3 & j3 & Hi3 & Hj3 & H3);
    [by eapply list_elem_of_lookup_2|by eapply list_elem_of_lookup_2|done|done|lia|].
  pose proof (NoDup_lookup _ _ _ _ Hnd Hj1 Hi2).
  pose proof (NoDup_lookup _ _ _ _ Hnd Hj2 Hi3).
  pose proof (NoDup_lookup _ _ _ _ Hnd Hj3 Hi1).
  lia.
Qed.

(** ** The document parser wrapper *)

(** C9. The title of a parsed file is the [title] attribute when that is
    truthy, and the base name of the path otherwise: when the attribute is
    missing, when it is the empty string, and when it is the number zero. *)
Theorem processFileContent_title_fallback `{PathUtils} `{FrontMatter}
    (fileContent : ParsedFile.t) :
  let explicit :=
    get (FrontMatterResult.attributes (matter (ParsedFile.content fileContent))) "title" in
  let basename := VStr (getBasename (ParsedFile.path fileContent)) in
  let title := CollectionFile.title (processFileContent fileContent) in
  title = (if ToBoolean explicit then default basename explicit else basename)
  /\ (explicit = None -> title = basename)
  /\ (explicit = Some (VStr "") -> title = basename)
  /\ (explicit = Some (VNum 0) -> title = basename)
  /\ (forall s, explicit = Some (VStr s) -> s ≠ "" -> title = VStr s)
  /\ (title ≠ basename -> exists v, explicit = Some v /\ ToBoolean (Some v) = true /\ title = v).
Proof.
  intros explicit basename title. unfold title, processFileContent. simpl.
  fold explicit basename. unfold or_else.
  split; [by destruct explicit as [[s|n]|]|].
  split; [by intros ->|]. split; [by intros ->|]. split; [by intros ->|].
  split.
  - intros s -> Hs. simpl. by destruct (String.eqb_spec s "").
  - destruct explicit as [v|]; [|done].
    destruct (ToBoolean (Some v)) eqn:Hv; [|done]. intros _. by exists v.
Qed.

(** ** The tree filter *)

Lemma filter_val {A : Type} (p : A -> bool) (l : list (Obj A)) :
  map val (List.filter (fun x => p (val x)) l) = List.filter p (map val l).
Proof.
  induction l as [|x l IH]; simpl; [done|].
  destruct (p (val x)); simpl; by rewrite IH.
Qed.

(** C6. The entries selected for a collection are exactly the entries of
    the tree, in the order of the tree, whose directory name is the route
    without its leading slash and whose path is a markdown path; when no
    entry is selected the load succeeds with an empty list. With the
    directory name and markdown test of the path utilities, the tree
    [root/a.md, root/sub/b.md, other/c.md] and the route [root] (or
    [/root]) select [root/a.md] only. *)
Theorem getCollectionFiles_selects_flat_markdown :
  (forall (P : PathUtils) collection tree,
      map val (List.filter (in_collection collection) (fresh tree))
      = List.filter
          (fun t => String.eqb (getDirname (TreeItem.path t))
                               (strip_leading_slash (ProjectCollection.route collection))
                    && isMarkdown (TreeItem.path t)) tree)
  /\ (forall (P : PathUtils) (F : FrontMatter) (B : Builtins) (E : ArraySort)
             token project collection tree fetch,
        List.filter (in_collection collection) (fresh tree) = [] ->
        Run.outcome (run (snapshot tree fetch) (getCollectionFiles token project collection) tt)
        = inr [])
  /\ (let tree := tree_of_paths ["root/a.md"; "root/sub/b.md"; "other/c.md"] in
      let select := fun route =>
        map (fun f => TreeItem.path (val f))
            (List.filter (@in_collection PathUtilsModel.instance
                            (ProjectCollection.mk "c" "C" route "t")) (fresh tree)) in
      select "root" = ["root/a.md"] /\ select "/root" = ["root/a.md"]
      /\ select "root/sub" = ["root/sub/b.md"] /\ select "docs" = []).
Proof.
  split; [|split].
  - intros P collection tree. unfold in_collection.
    rewrite (filter_val (fun t => String.eqb (getDirname (TreeItem.path t))
                                   (strip_leading_slash (ProjectCollection.route collection))
                                 && isMarkdown (TreeItem.path t))).
    by rewrite fresh_vals.
  - intros P F B E token project collection tree fetch Hempty.
    rewrite (getCollectionFiles_loaded token project collection tree fetch []).
    + simpl. by rewrite sort_nil.
    + by rewrite Hempty.
  - repeat split.
Qed.

(** ** The configuration file *)

Lemma path_item_of (p : string) (e : GitHub.entry) :
  TreeItem.path (GitHub.item_of (p, e)) = p.
Proof. by destruct e. Qed.

Lemma find_in_tree (m : gmap string GitHub.entry) (k : string) :
  is_Some (List.find (fun f => String.eqb (TreeItem.path f) k)
                     (map GitHub.item_of (map_to_list m)))
  <-> is_Some (m !! k).
Proof.
  split.
  - intros [x Hx]. apply find_some in Hx as [Hin Hk].
    apply in_map_iff in Hin as ([p e] & <- & Hin).
    rewrite path_item_of in Hk. apply String.eqb_eq in Hk as ->.
    exists e. apply elem_of_map_to_list. by apply list_elem_of_In.
  - intros [e He].
    destruct (List.find _ _) as [x|] eqn:Hfind; [by eexists|]. exfalso.
    assert (Hin : In (GitHub.item_of (k, e)) (map GitHub.item_of (map_to_list m))).
    { apply in_map. apply list_elem_of_In. by apply elem_of_map_to_list. }
    pose proof (find_none _ _ Hfind _ Hin) as Hno. cbv beta in Hno.
    rewrite path_item_of, String.eqb_refl in Hno. done.
Qed.

Lemma files_at_put (g : GitHub.t) (branch path content sha : string) :
  GitHub.files_at (GitHub.put g branch path content sha) branch !! path
  = Some (GitHub.Blob content sha).
Proof.
  unfold GitHub.files_at, GitHub.put, GitHub.resolve. simpl.
  rewrite lookup_insert_eq. simpl. by rewrite lookup_insert_eq.
Qed.

Lemma createConfigFile_present (git_hash : string -> string) (g : GitHub.t)
    (token repo branch : string) :
  is_Some (GitHub.files_at g branch !! CONFIG_FILE_NAME) ->
  run (GitHub.handler git_hash (fun g => g)) (createConfigFile token repo branch) g
  = Run.mk (inr tt) g [ReqGetRepoFiles token repo branch].
Proof.
  intros Hpresent. apply find_in_tree in Hpresent as [x Hx].
  unfold createConfigFile. rewrite run_bind. simpl. by rewrite Hx.
Qed.

Lemma createConfigFile_absent (git_hash : string -> string) (g : GitHub.t)
    (token repo branch : string) :
  GitHub.files_at g branch !! CONFIG_FILE_NAME = None ->
  run (GitHub.handler git_hash (fun g => g)) (createConfigFile token repo branch) g
  = Run.mk (inr tt)
      (GitHub.put g branch CONFIG_FILE_NAME CONFIG_FILE_TEMPLATE (git_hash CONFIG_FILE_TEMPLATE))
      [ReqGetRepoFiles token repo branch; create_request token repo branch].
Proof.
  intros Habsent. unfold createConfigFile. rewrite run_bind. simpl.
  destruct (List.find _ _) as [x|] eqn:Hfind.
  - assert (Hsome : is_Some (GitHub.files_at g branch !! CONFIG_FILE_NAME)).
    { apply find_in_tree. rewrite Hfind. by eexists. }
    rewrite Habsent in Hsome. by destruct Hsome.
  - simpl. unfold GitHub.write_file. simpl. by rewrite Habsent.
Qed.

(** C7. Without other writers: when the tree has an entry at the path of
    the configuration file, [createConfigFile] succeeds with the listing as
    its only request and leaves the repository as it is; when it has none,
    it succeeds with one write, of the default content under the
    [[skip ci]] message, after which the file holds that content. A second
    call in sequence always succeeds without a write and leaves the
    repository as the first call left it, so two calls write once when the
    file was absent and never when it was present. *)
Theorem createConfigFile_idempotent (git_hash : string -> string) (g : GitHub.t)
    (token repo branch : string) :
  let h := GitHub.handler git_hash (fun g => g) in
  let first := run h (createConfigFile token repo branch) g in
  let second := run h (createConfigFile token repo branch) (Run.final first) in
  let writes := List.filter is_write (Run.requests first ++ Run.requests second)%list in
  (is_Some (GitHub.files_at g branch !! CONFIG_FILE_NAME) ->
     Run.outcome first = inr tt /\ Run.final first = g /\ writes = [])
  /\ (GitHub.files_at g branch !! CONFIG_FILE_NAME = None ->
        Run.outcome first = inr tt
        /\ writes = [create_request token repo branch]
        /\ GitHub.files_at (Run.final first) branch !! CONFIG_FILE_NAME
           = Some (GitHub.Blob CONFIG_FILE_TEMPLATE (git_hash CONFIG_FILE_TEMPLATE)))
  /\ Run.outcome second = inr tt
  /\ Run.requests second = [ReqGetRepoFiles token repo branch]
  /\ Run.final second = Run.final first
  /\ CONFIG_FILE_TEMPLATE
     = "{" +:+ nl +:+ "  " +:+ dquote +:+ "collections" +:+ dquote +:+ ": []," +:+ nl
         +:+ "  " +:+ dquote +:+ "templates" +:+ dquote +:+ ": []" +:+ nl +:+ "}" +:+ nl.
Proof.
  intros h first second writes.
  assert (Hafter : is_Some (GitHub.files_at (Run.final first) branch !! CONFIG_FILE_NAME)).
  { unfold first, h.
    destruct (GitHub.files_at g branch !! CONFIG_FILE_NAME) as [e|] eqn:Hg.
    - rewrite createConfigFile_present by (by rewrite Hg). simpl. by rewrite Hg.
    - rewrite createConfigFile_absent by done. simpl. by rewrite files_at_put. }
  assert (Hsecond : second = Run.mk (inr tt) (Run.final first) [ReqGetRepoFiles token repo branch]).
  { unfold second, h. by apply createConfigFile_present. }
  split; [|split].
  - intros Hpresent. unfold writes. rewrite Hsecond. unfold first, h.
    by rewrite createConfigFile_present.
  - intros Habsent. unfold writes. rewrite Hsecond. unfold first, h.
    rewrite createConfigFile_absent by done. simpl. by rewrite files_at_put.
  - by rewrite Hsecond.
Qed.

(** C8. [updateConfigFile] issues two requests: the fetch of the
    configuration file, then a write whose base identifier is the one the
    fetch returned. When, at the time of the write, the file on the target
    branch has another identifier, because another writer changed it in
    between, the call is rejected with [Conflict] and the repository keeps
    the newer content; when the identifier is still current the write is
    accepted. *)
Theorem updateConfigFile_stale_base_conflicts `{Builtins} (git_hash : string -> string)
    (others : GitHub.t -> GitHub.t) (g : GitHub.t) (token : string)
    (project : Project.t) (config : ProjectConfig.t) :
  let r := run (GitHub.handler git_hash others) (updateConfigFile token project config) g in
  let at_fetch := others g in
  let at_write := others at_fetch in
  let target :=
    if String.eqb (Project.branch project) "" then "master" else Project.branch project in
  let base :=
    match GitHub.files_at at_fetch (Project.branch project) !! CONFIG_FILE_NAME with
    | Some (GitHub.Blob _ sha) => Some sha
    | _ => None
    end in
  Run.requests r
  = [ ReqGetFileContent token
        (GetFileParams.mk CONFIG_FILE_NAME (Project.repo project) (Project.branch project));
      ReqSaveFile token
        (SaveParams.mk base (Project.repo project) target CONFIG_FILE_NAME
           (JSON_stringify config) "[skip ci] Update config file for Pressunto") ]
  /\ (forall content current,
        GitHub.files_at at_write target !! CONFIG_FILE_NAME
          = Some (GitHub.Blob content current) ->
        base ≠ Some current ->
        Run.outcome r = inl (Rejected Conflict) /\ Run.final r = at_write)
  /\ (forall content current,
        GitHub.files_at at_write target !! CONFIG_FILE_NAME
          = Some (GitHub.Blob content current) ->
        base = Some current ->
        Run.outcome r = inr tt
        /\ GitHub.files_at (Run.final r) target !! CONFIG_FILE_NAME
           = Some (GitHub.Blob (JSON_stringify config) (git_hash (JSON_stringify config)))).
Proof.
  intros r at_fetch at_write target base.
  assert (Hsha : ParsedFile.sha <$>
            match GitHub.files_at at_fetch (Project.branch project) !! CONFIG_FILE_NAME with
            | Some (GitHub.Blob c s) => Some (ParsedFile.mk c s CONFIG_FILE_NAME)
            | _ => None
            end = base).
  { unfold base. by destruct (_ !! _) as [[c s|s]|]. }
  unfold r, updateConfigFile. rewrite run_bind.
  cbn [getFileContent saveFile run step GitHub.handler on_getFileContent on_saveFile
       GitHub.read_file Run.outcome Run.final Run.requests
       GetFileParams.file GetFileParams.branch].
  fold at_fetch. rewrite Hsha. fold target.
  unfold GitHub.write_file.
  cbn [SaveParams.sha SaveParams.branch SaveParams.path SaveParams.content].
  fold at_write.
  split; [|split].
  - destruct (GitHub.files_at at_write target !! CONFIG_FILE_NAME) as [[c s|s]|];
      destruct base as [b|]; try destruct (String.eqb b s); done.
  - intros content current -> Hstale. destruct base as [b|]; [|done].
    destruct (String.eqb_spec b current) as [->|_]; done.
  - intros content current -> ->. rewrite String.eqb_refl. simpl.
    split; [done|]. apply files_at_put.
Qed.

(** ** Lines of a text *)

Lemma split_nonempty (c : ascii) (s : string) : split c s ≠ [].
Proof.
  destruct s as [|a r]; simpl; [done|].
  destruct (Ascii.eqb a c); [done|]. by destruct (split c r).
Qed.

Lemma split_app (c : ascii) (a b : string) :
  split c (a +:+ String c b) = (split c a ++ split c b)%list.
Proof.
  induction a as [|x a IH]; simpl.
  - by rewrite Ascii.eqb_refl.
  - destruct (Ascii.eqb x c); [by rewrite IH|].
    rewrite IH. pose proof (split_nonempty c a) as Hne.
    by destruct (split c a).
Qed.

Lemma split_no_separator (c : ascii) (s : string) :
  contains c s = false -> split c s = [s].
Proof.
  induction s as [|a r IH]; simpl; [done|].
  destruct (Ascii.eqb a c); [done|]. simpl. intros Hr. by rewrite IH.
Qed.

Lemma join_cons (sep x : string) (l : list string) :
  l ≠ [] -> join sep (x :: l) = x +:+ sep +:+ join sep l.
Proof. by destruct l. Qed.

Lemma append_String (x : ascii) (a b : string) : String x a +:+ b = String x (a +:+ b).
Proof. reflexivity. Qed.

Lemma append_empty (b : string) : "" +:+ b = b.
Proof. reflexivity. Qed.


Lemma split_join (c : ascii) (ls : list string) :
  ls ≠ [] -> Forall (fun l => contains c l = false) ls ->
  split c (join (String c "") ls) = ls.
Proof.
  induction ls as [|l ls IH]; [done|]. intros _ Hclean.
  apply Forall_cons in Hclean as [Hl Hls].
  destruct ls as [|l' ls].
  - simpl. by apply split_no_separator.
  - rewrite join_cons by done. rewrite append_String, append_empty, split_app.
    rewrite IH by done. by rewrite split_no_separator.
Qed.

Lemma contains_app (c : ascii) (a b : string) :
  contains c (a +:+ b) = contains c a || contains c b.
Proof.
  induction a as [|x a IH]; simpl; [done|]. rewrite IH. by rewrite orb_assoc.
Qed.

(** ** Numbers as text *)

Lemma contains_string_of_uint (d : Decimal.uint) :
  contains "010" (NilEmpty.string_of_uint d) = false.
Proof. induction d; simpl; done. Qed.

Lemma contains_Number_toString (n : Z) : contains "010" (Number_toString n) = false.
Proof.
  assert (Hu : forall d, contains "010" (NilZero.string_of_uint d) = false).
  { intros d. destruct d; try done; apply contains_string_of_uint. }
  unfold Number_toString. destruct (Z.to_int n); simpl; apply Hu.
Qed.

Lemma scalar_Number_toString (n : Z) :
  FrontMatterModel.scalar (Number_toString n) = VNum n.
Proof.
  unfold FrontMatterModel.scalar, Number_toString.
  rewrite NilZero.isi.
  - by rewrite DecimalZ.of_to.
  - destruct n; simpl; [done| |done]. intros [= Hp].
    by apply DecimalPos.Unsigned.to_uint_nonnil in Hp.
  - destruct n; simpl; [done|done|]. intros [= Hp].
    by apply DecimalPos.Unsigned.to_uint_nonnil in Hp.
Qed.

(** ** The parser model reads back what the order builder writes *)

Module Codec.
Import FrontMatterModel.

Lemma line_shape (k : string) (v : value) :
  metadata_line (k, v) = k +:+ String ":" (String " " (ToString v)).
Proof. reflexivity. Qed.

Lemma cut_app (c : ascii) (k r : string) :
  contains c k = false -> cut c (k +:+ String c r) = Some (k, r).
Proof.
  induction k as [|a k IH]; simpl.
  - by rewrite Ascii.eqb_refl.
  - destruct (Ascii.eqb a c); [done|]. simpl. intros Hk. by rewrite IH.
Qed.

Lemma ToString_clean (v : value) :
  wf_value v = true -> contains "010" (ToString v) = false.
Proof.
  destruct v as [s|n]; simpl; [|intros _; apply contains_Number_toString].
  intros Hs. apply andb_true_iff in Hs as [Hs _]. by apply negb_true_iff.
Qed.

Lemma scalar_ToString (v : value) : wf_value v = true -> scalar (ToString v) = v.
Proof.
  destruct v as [s|n]; simpl; [|intros _; apply scalar_Number_toString].
  intros Hs. apply andb_true_iff in Hs as [_ Hs]. unfold scalar.
  by destruct (NilZero.int_of_string s).
Qed.

Lemma parse_line_render (k : string) (v : value) :
  wf_key k = true -> wf_value v = true -> parse_line (metadata_line (k, v)) = Some (k, v).
Proof.
  intros Hk Hv. unfold wf_key in Hk.
  apply andb_true_iff in Hk as [Hk _]. apply andb_true_iff in Hk as [Hne Hcolon].
  apply negb_true_iff in Hcolon. unfold parse_line.
  rewrite line_shape, cut_app by done. simpl. rewrite Hne. simpl.
  by rewrite scalar_ToString.
Qed.

Lemma is_blank_contains (c : ascii) (s : string) :
  contains c s = true -> is_space c = false -> is_blank s = false.
Proof.
  intros Hs Hc. induction s as [|a s IH]; simpl in *; [done|].
  destruct (Ascii.eqb_spec a c) as [->|_]; [by rewrite Hc|].
  rewrite IH by done. apply andb_false_r.
Qed.

Lemma contains_colon_line (k : string) (v : value) : contains ":" (metadata_line (k, v)) = true.
Proof.
  rewrite line_shape, contains_app. simpl. apply orb_true_r.
Qed.

Lemma line_not_blank (k : string) (v : value) : is_blank (metadata_line (k, v)) = false.
Proof. apply (is_blank_contains ":"); [apply contains_colon_line|done]. Qed.

Lemma line_not_marker (k : string) (v : value) : String.eqb (metadata_line (k, v)) marker = false.
Proof.
  apply String.eqb_neq. intros Heq.
  pose proof (contains_colon_line k v) as Hc. by rewrite Heq in Hc.
Qed.

Lemma line_clean (k : string) (v : value) :
  wf_key k = true -> wf_value v = true -> contains "010" (metadata_line (k, v)) = false.
Proof.
  intros Hk Hv. unfold wf_key in Hk. apply andb_true_iff in Hk as [_ Hk].
  apply negb_true_iff in Hk.
  rewrite line_shape, contains_app, Hk. simpl. by apply ToString_clean.
Qed.

Lemma parse_block_render (o : object) :
  wf_object o = true -> parse_block (map metadata_line o) = Some o.
Proof.
  induction o as [|[k v] o IH]; [done|]. intros Hwf.
  cbn [wf_object] in Hwf.
  apply andb_true_iff in Hwf as [Hwf Ho]. apply andb_true_iff in Hwf as [Hwf Hfresh].
  apply andb_true_iff in Hwf as [Hk Hv].
  cbn [map parse_block]. rewrite line_not_blank, parse_line_render, IH by done.
  by destruct (get o k).
Qed.

Lemma lines_clean (o : object) :
  wf_object o = true -> Forall (fun l => contains "010" l = false) (map metadata_line o).
Proof.
  induction o as [|[k v] o IH]; [constructor|]. intros Hwf.
  cbn [wf_object] in Hwf.
  apply andb_true_iff in Hwf as [Hwf Ho]. apply andb_true_iff in Hwf as [Hwf _].
  apply andb_true_iff in Hwf as [Hk Hv].
  constructor; [by apply line_clean|by apply IH].
Qed.

Lemma break_at_marker_app (ls rest : list string) :
  Forall (fun l => String.eqb l marker = false) ls ->
  break_at_marker (ls ++ marker :: rest)%list = Some (ls, rest).
Proof.
  induction ls as [|l ls IH]; intros Hls; [done|].
  apply Forall_cons in Hls as [Hl Hls]. simpl. by rewrite Hl, IH.
Qed.

Lemma split_block (o : object) :
  wf_object o = true -> split "010" (join nl (map metadata_line o)) = block_lines o.
Proof.
  intros Hwf. destruct o as [|kv o]; [done|].
  apply split_join; [done|by apply lines_clean].
Qed.

Lemma parse_block_lines (o : object) :
  wf_object o = true -> parse_block (block_lines o) = Some o.
Proof. intros Hwf. destruct o as [|kv o]; [done|]. by apply parse_block_render. Qed.

Lemma block_lines_no_marker (o : object) :
  Forall (fun l => String.eqb l marker = false) (block_lines o).
Proof.
  destruct o as [|kv o]; [by repeat constructor|].
  unfold block_lines. apply Forall_forall. intros l Hl.
  apply list_elem_of_fmap in Hl as ([k v] & -> & _). apply line_not_marker.
Qed.

Lemma split_append_nl (a b : string) :
  split "010" (a +:+ nl +:+ b) = (split "010" a ++ split "010" b)%list.
Proof. change (a +:+ nl +:+ b) with (a +:+ String "010" b). apply split_app. Qed.

Lemma split_render (o : object) (b : string) :
  wf_object o = true ->
  split "010" (render o b)
  = ("---" :: block_lines o ++ "---" :: "" :: split "010" b)%list.
Proof.
  intros Hwf. unfold render. fold metadata_line.
  replace (map (fun '(key, value) => key +:+ ": " +:+ ToString value) o) with (map metadata_line o)
    by (apply map_ext; by intros [k v]).
  rewrite !join_cons by done. change (join nl [b]) with b.
  rewrite !split_append_nl, split_block by done.
  by rewrite (split_no_separator _ "---") by done.
Qed.


Lemma matter_render (o : object) (b : string) :
  wf_object o = true ->
  matter (render o b) = FrontMatterResult.mk o (trim_blank_lines b).
Proof.
  intros Ho. unfold matter. rewrite split_render by done.
  change (String.eqb "---" marker) with true. cbv iota.
  change "---" with marker at 1.
  rewrite break_at_marker_app by apply block_lines_no_marker.
  by rewrite parse_block_lines by done.
Qed.

Lemma get_map_values (g : string -> value -> value) (o : object) (k : string) :
  get (map (fun '(key, value) => (key, g key value)) o) k = g k <$> get o k.
Proof.
  induction o as [|[k' v] o IH]; [done|]. simpl.
  destruct (String.eqb_spec k' k) as [->|_]; [done|]. apply IH.
Qed.

Lemma wf_map_values (g : string -> value -> value) (o : object) :
  (forall k v, wf_value v = true -> wf_value (g k v) = true) ->
  wf_object o = true ->
  wf_object (map (fun '(key, value) => (key, g key value)) o) = true.
Proof.
  intros Hg. induction o as [|[k v] o IH]; [done|]. intros Hwf.
  cbn [wf_object] in Hwf.
  apply andb_true_iff in Hwf as [Hwf Ho]. apply andb_true_iff in Hwf as [Hwf Hfresh].
  apply andb_true_iff in Hwf as [Hk Hv].
  cbn [map wf_object]. rewrite Hk, (Hg k v Hv), (IH Ho), get_map_values.
  by destruct (get o k).
Qed.

Lemma wf_written (files : list (Obj CollectionFile.t)) (file : Obj CollectionFile.t) :
  wf_object (CollectionFile.attributes (val file)) = true ->
  wf_object (written_attributes files file) = true.
Proof.
  apply wf_map_values. intros k v Hv. unfold order_or_value.
  by destruct (String.eqb k "order").
Qed.

Lemma matter_serialize (files : list (Obj CollectionFile.t)) (file : Obj CollectionFile.t) :
  wf_object (CollectionFile.attributes (val file)) = true ->
  matter (serialize files file)
  = FrontMatterResult.mk (written_attributes files file)
      (trim_blank_lines (CollectionFile.body (val file))).
Proof.
  intros Ho. rewrite serialize_render. apply matter_render. by apply wf_written.
Qed.

End Codec.




(** The builder writes a value as it is, without quotes, so the attributes
    have to be well formed: a title that is the string [007] is written as
    [title: 007] and read back as the number [7]. *)
Example reorder_needs_well_formed :
  let f := mkObj 0 (CollectionFile.mk "sha-a" (VStr "007") "posts/a.md"
                      [("title", VStr "007")] "body") in
  let again :=
    @processFileContent PathUtilsModel.instance FrontMatterModel.instance
      (ParsedFile.mk (serialize [f] f) "sha-a" "posts/a.md") in
  wf_object (CollectionFile.attributes (val f)) = false
  /\ serialize [f] f = join nl ["---"; "title: 007"; "---"; ""; "body"]
  /\ get (CollectionFile.attributes again) "title" = Some (VNum 7).
Proof. repeat split. Qed.

(** ** Worked examples *)

Example getCollectionFiles_absent_blob :
  let tree := tree_of_paths ["posts/a.md"; "posts/b.md"; "posts/c.md"; "README.md"] in
  let fetch := fun p =>
    if String.eqb p "posts/b.md" then None
    else Some (ParsedFile.mk sample_text ("sha-" +:+ p) p) in
  let r :=
    run (snapshot tree fetch)
        (@getCollectionFiles PathUtilsModel.instance FrontMatterModel.instance
           (Build_Builtins (fun _ => None) (fun _ => "{}")) insertion_engine
           "token" (Project.mk 1 "ana" "Site" "ana/site" "main")
           (ProjectCollection.mk "posts" "Posts" "/posts" "post")) tt in
  Run.outcome r
  = inl (Thrown (Response.mk
                   ("Content for file " +:+ dquote +:+ "posts/b.md" +:+ dquote
                      +:+ " was not found in github API") 404 "Not found"))
  /\ length (Run.requests r) = 4%nat.
Proof. split; reflexivity. Qed.

Example createConfigFile_twice :
  let h := GitHub.handler (fun text => "sha:" +:+ text) (fun g => g) in
  let empty := GitHub.mk "main" ∅ in
  let first := run h (createConfigFile "token" "ana/site" "main") empty in
  let second := run h (createConfigFile "token" "ana/site" "main") (Run.final first) in
  length (List.filter is_write (Run.requests first)) = 1%nat
  /\ length (List.filter is_write (Run.requests second)) = 0%nat
  /\ GitHub.files_at (Run.final second) "main" !! CONFIG_FILE_NAME
     = Some (GitHub.Blob CONFIG_FILE_TEMPLATE ("sha:" +:+ CONFIG_FILE_TEMPLATE)).
Proof. repeat split; vm_compute; reflexivity. Qed.

Example updateConfigFile_concurrent_edit :
  let hash := fun text => "sha:" +:+ text in
  let edit := fun g =>
    match GitHub.files_at g "main" !! CONFIG_FILE_NAME with
    | Some (GitHub.Blob text _) =>
        GitHub.put g "main" CONFIG_FILE_NAME (text +:+ " ") (hash (text +:+ " "))
    | _ => g
    end in
  let start := GitHub.put (GitHub.mk "main" ∅) "main" CONFIG_FILE_NAME "{}" (hash "{}") in
  let r :=
    run (GitHub.handler hash edit)
        (@updateConfigFile (Build_Builtins (fun _ => None) (fun _ => "{new}"))
           "token" (Project.mk 1 "ana" "Site" "ana/site" "main")
           (ProjectConfig.mk None [] [])) start in
  Run.outcome r = inl (Rejected Conflict)
  /\ GitHub.files_at (Run.final r) "main" !! CONFIG_FILE_NAME
     = Some (GitHub.Blob "{}  " (hash "{}  ")).
Proof. split; vm_compute; reflexivity. Qed.

(** ** Deleting and reading the configuration file *)

Lemma files_at_put_lookup (g : GitHub.t) (branch path content sha branch' path' : string) :
  GitHub.files_at (GitHub.put g branch path content sha) branch' !! path'
  = if decide (GitHub.resolve g branch = GitHub.resolve g branch' /\ path = path')
    then Some (GitHub.Blob content sha)
    else GitHub.files_at g branch' !! path'.
Proof.
  unfold GitHub.files_at at 1. unfold GitHub.put, GitHub.resolve at 1. simpl.
  fold (GitHub.resolve g branch').
  destruct (decide (GitHub.resolve g branch = GitHub.resolve g branch')) as [Hb|Hb].
  - rewrite Hb, lookup_insert_eq. simpl.
    unfold GitHub.files_at at 1. rewrite Hb. fold (GitHub.files_at g branch').
    destruct (decide (path = path')) as [->|Hp].
    + rewrite lookup_insert_eq. by rewrite decide_True.
    + rewrite lookup_insert_ne by done. rewrite decide_False; [done|]. by intros [_ ?].
  - rewrite lookup_insert_ne by done. rewrite decide_False; [done|]. by intros [? _].
Qed.

Lemma files_at_remove_lookup (g : GitHub.t) (branch path branch' path' : string) :
  GitHub.files_at (github_remove g branch path) branch' !! path'
  = if decide (GitHub.resolve g branch = GitHub.resolve g branch' /\ path = path')
    then None
    else GitHub.files_at g branch' !! path'.
Proof.
  unfold GitHub.files_at at 1. unfold github_remove, GitHub.resolve at 1. simpl.
  fold (GitHub.resolve g branch').
  destruct (decide (GitHub.resolve g branch = GitHub.resolve g branch')) as [Hb|Hb].
  - rewrite Hb, lookup_insert_eq. simpl.
    unfold GitHub.files_at at 1. rewrite Hb. fold (GitHub.files_at g branch').
    destruct (decide (path = path')) as [->|Hp].
    + rewrite lookup_delete_eq. by rewrite decide_True.
    + rewrite lookup_delete_ne by done. rewrite decide_False; [done|]. by intros [_ ?].
  - rewrite lookup_insert_ne by done. rewrite decide_False; [done|]. by intros [? _].
Qed.

(** X1. Whatever the provider, [deleteConfigFile] first fetches the
    configuration file; it issues a [deleteFile], one, at the path of the
    configuration file and under the [[skip ci]] message, only when the
    fetch returned a file, and its result is then the result of that call;
    when the fetch returned nothing it succeeds without a second request. *)
Theorem deleteConfigFile_deletes_only_what_it_found {S : Type} (h : Handler S)
    (on_deleteFile : string -> DeleteParams.t -> S -> (ProviderError + unit) * S)
    (s : S) (token : string) (project : Project.t) :
  let fetch :=
    GetFileParams.mk CONFIG_FILE_NAME (Project.repo project) (Project.branch project) in
  let removal :=
    DeleteParams.mk (Project.repo project) (Project.branch project)
      "[skip ci] Delete config file for Pressunto" CONFIG_FILE_NAME in
  let r := run_ext h on_deleteFile (deleteConfigFile token project) s in
  match on_getFileContent h token fetch s with
  | (inl e, s') =>
      RunX.outcome r = inl (Rejected e) /\ RunX.final r = s'
      /\ RunX.requests r = [Issued (ReqGetFileContent token fetch)]
  | (inr None, s') =>
      RunX.outcome r = inr tt /\ RunX.final r = s'
      /\ RunX.requests r = [Issued (ReqGetFileContent token fetch)]
  | (inr (Some _), s') =>
      RunX.requests r
      = [Issued (ReqGetFileContent token fetch); ReqDeleteFile token removal]
      /\ RunX.final r = snd (on_deleteFile token removal s')
      /\ RunX.outcome r
         = match fst (on_deleteFile token removal s') with
           | inl e => inl (Rejected e)
           | inr _ => inr tt
           end
  end.
Proof.
  intros fetch removal r. unfold r, deleteConfigFile. simpl. fold fetch removal.
  unfold step. destruct (on_getFileContent h token fetch s) as [[e|[file|]] s']; simpl; [done| |done].
  by destruct (on_deleteFile token removal s') as [[e|[]] s''].
Qed.

Lemma deleteConfigFile_github (git_hash : string -> string) (g : GitHub.t)
    (token : string) (project : Project.t) :
  let branch := Project.branch project in
  let fetch :=
    Issued (ReqGetFileContent token
              (GetFileParams.mk CONFIG_FILE_NAME (Project.repo project) branch)) in
  let removal :=
    ReqDeleteFile token
      (DeleteParams.mk (Project.repo project) branch
         "[skip ci] Delete config file for Pressunto" CONFIG_FILE_NAME) in
  github_run_ext git_hash (deleteConfigFile token project) g
  = match GitHub.files_at g branch !! CONFIG_FILE_NAME with
    | Some (GitHub.Blob _ _) =>
        RunX.mk (inr tt) (github_remove g branch CONFIG_FILE_NAME) [fetch; removal]
    | _ => RunX.mk (inr tt) g [fetch]
    end.
Proof.
  intros branch fetch removal.
  unfold github_run_ext, deleteConfigFile. simpl. unfold step, GitHub.read_file.
  simpl. fold branch.
  destruct (GitHub.files_at g branch !! CONFIG_FILE_NAME) as [[c s|s]|] eqn:Hg; simpl;
    [|done|done].
  unfold github_delete. simpl. fold branch. by rewrite Hg.
Qed.

(** X2. Without other writers, [deleteConfigFile] always succeeds and
    leaves no file at the path of the configuration file, every other path
    of every branch is as it was, and a second call in sequence succeeds
    with the fetch as its only request and changes nothing. *)
Theorem deleteConfigFile_idempotent (git_hash : string -> string) (g : GitHub.t)
    (token : string) (project : Project.t) :
  let first := github_run_ext git_hash (deleteConfigFile token project) g in
  let second := github_run_ext git_hash (deleteConfigFile token project) (RunX.final first) in
  let branch := Project.branch project in
  RunX.outcome first = inr tt
  /\ (forall content sha,
        GitHub.files_at (RunX.final first) branch !! CONFIG_FILE_NAME
        ≠ Some (GitHub.Blob content sha))
  /\ (forall branch' path,
        path ≠ CONFIG_FILE_NAME ->
        GitHub.files_at (RunX.final first) branch' !! path = GitHub.files_at g branch' !! path)
  /\ RunX.outcome second = inr tt
  /\ RunX.final second = RunX.final first
  /\ RunX.requests second
     = [Issued (ReqGetFileContent token
                  (GetFileParams.mk CONFIG_FILE_NAME (Project.repo project) branch))].
Proof.
  intros first second branch.
  assert (Hgone : forall content sha,
            GitHub.files_at (RunX.final first) branch !! CONFIG_FILE_NAME
            ≠ Some (GitHub.Blob content sha)).
  { intros c s. unfold first. rewrite deleteConfigFile_github. fold branch.
    destruct (GitHub.files_at g branch !! CONFIG_FILE_NAME) as [[c' s'|s']|] eqn:Hg; simpl.
    - rewrite files_at_remove_lookup. by rewrite decide_True.
    - by rewrite Hg.
    - by rewrite Hg. }
  assert (Hsecond : second
            = RunX.mk (inr tt) (RunX.final first)
                [Issued (ReqGetFileContent token
                   (GetFileParams.mk CONFIG_FILE_NAME (Project.repo project) branch))]).
  { unfold second. rewrite deleteConfigFile_github. fold branch.
    destruct (GitHub.files_at (RunX.final first) branch !! CONFIG_FILE_NAME)
      as [[c s|s]|] eqn:Hg; [|done|done].
    by destruct (Hgone c s). }
  split; [|split; [exact Hgone|split; [|by rewrite Hsecond]]].
  - unfold first. rewrite deleteConfigFile_github.
    by destruct (GitHub.files_at g _ !! CONFIG_FILE_NAME) as [[c s|s]|].
  - intros branch' path Hpath. unfold first. rewrite deleteConfigFile_github. fold branch.
    destruct (GitHub.files_at g branch !! CONFIG_FILE_NAME) as [[c s|s]|]; simpl; try done.
    rewrite files_at_remove_lookup. rewrite decide_False; [done|]. intros [_ Heq]. by subst.
Qed.

(** X3. Whatever the provider, [getProjectConfig] issues one request, a
    fetch of the configuration file, and never a write; when the fetch
    returns nothing, or a file whose content is empty, the result is what
    [JSON.parse] makes of the default template. *)
Theorem getProjectConfig_defaults_to_template `{JsonParse} {S : Type} (h : Handler S)
    (s : S) (token : string) (project : Project.t) :
  let fetch :=
    GetFileParams.mk CONFIG_FILE_NAME (Project.repo project) (Project.branch project) in
  let r := run h (getProjectConfig token project) s in
  Run.requests r = [ReqGetFileContent token fetch]
  /\ Run.final r = snd (on_getFileContent h token fetch s)
  /\ match fst (on_getFileContent h token fetch s) with
     | inl e => Run.outcome r = inl (Rejected e)
     | inr None => Run.outcome r = inr (JSON_parse CONFIG_FILE_TEMPLATE)
     | inr (Some file) =>
         Run.outcome r
         = inr (JSON_parse (if String.eqb (ParsedFile.content file) ""
                            then CONFIG_FILE_TEMPLATE else ParsedFile.content file))
     end.
Proof.
  intros fetch r. unfold r, getProjectConfig. rewrite run_bind. simpl. fold fetch.
  unfold step. by destruct (on_getFileContent h token fetch s) as [[e|[file|]] s'].
Qed.

Lemma getProjectConfig_github `{JsonParse} (git_hash : string -> string) (g : GitHub.t)
    (token : string) (project : Project.t) :
  run (GitHub.handler git_hash (fun g => g)) (getProjectConfig token project) g
  = Run.mk
      (inr (JSON_parse
              (match GitHub.files_at g (Project.branch project) !! CONFIG_FILE_NAME with
               | Some (GitHub.Blob content _) =>
                   if String.eqb content "" then CONFIG_FILE_TEMPLATE else content
               | _ => CONFIG_FILE_TEMPLATE
               end)))
      g
      [ReqGetFileContent token
         (GetFileParams.mk CONFIG_FILE_NAME (Project.repo project) (Project.branch project))].
Proof.
  unfold getProjectConfig. rewrite run_bind. simpl. unfold content_or_template.
  by destruct (GitHub.files_at g (Project.branch project) !! CONFIG_FILE_NAME) as [[c s|s]|].
Qed.

Lemma updateConfigFile_github `{Builtins} (git_hash : string -> string) (g : GitHub.t)
    (token : string) (project : Project.t) (config : ProjectConfig.t) :
  let target :=
    if String.eqb (Project.branch project) "" then "master" else Project.branch project in
  let base :=
    match GitHub.files_at g (Project.branch project) !! CONFIG_FILE_NAME with
    | Some (GitHub.Blob _ sha) => Some sha
    | _ => None
    end in
  let write :=
    GitHub.write_file git_hash (fun g => g)
      (SaveParams.mk base (Project.repo project) target CONFIG_FILE_NAME
         (JSON_stringify config) "[skip ci] Update config file for Pressunto") g in
  let r := run (GitHub.handler git_hash (fun g => g)) (updateConfigFile token project config) g in
  Run.outcome r
  = match fst write with inl e => inl (Rejected e) | inr x => inr x end
  /\ Run.final r = snd write.
Proof.
  intros target base write r. unfold r, updateConfigFile. rewrite run_bind. simpl.
  fold target.
  replace (ParsedFile.sha <$> _) with base
    by (unfold base; by destruct (_ !! _) as [[c s|s]|]).
  fold write. by destruct write as [[e|[]] g'].
Qed.

(** X4. Without other writers, creating the configuration file never
    changes what [getProjectConfig] returns: the call after
    [createConfigFile] returns what the call before it would have. *)
Theorem createConfigFile_keeps_project_config `{JsonParse} (git_hash : string -> string)
    (g : GitHub.t) (token : string) (project : Project.t) :
  let h := GitHub.handler git_hash (fun g => g) in
  let created :=
    run h (createConfigFile token (Project.repo project) (Project.branch project)) g in
  Run.outcome created = inr tt
  /\ Run.outcome (run h (getProjectConfig token project) (Run.final created))
     = Run.outcome (run h (getProjectConfig token project) g).
Proof.
  intros h created. unfold created, h. rewrite !getProjectConfig_github.
  destruct (GitHub.files_at g (Project.branch project) !! CONFIG_FILE_NAME) as [e|] eqn:Hg.
  - rewrite createConfigFile_present by (by rewrite Hg). simpl. by rewrite Hg.
  - rewrite createConfigFile_absent by done. simpl. by rewrite files_at_put.
Qed.

(** X5. Without other writers, for a project with a branch name and a
    repository whose configuration path is not a directory:
    [updateConfigFile] succeeds, [getProjectConfig] then returns what
    [JSON.parse] makes of the text that [JSON.stringify] wrote, and every
    other path is as it was. *)
Theorem updateConfigFile_then_getProjectConfig `{Builtins} `{JsonParse}
    (git_hash : string -> string) (g : GitHub.t) (token : string)
    (project : Project.t) (config : ProjectConfig.t) :
  Project.branch project ≠ "" ->
  (forall sha, GitHub.files_at g (Project.branch project) !! CONFIG_FILE_NAME
               ≠ Some (GitHub.Tree sha)) ->
  JSON_stringify config ≠ "" ->
  let h := GitHub.handler git_hash (fun g => g) in
  let updated := run h (updateConfigFile token project config) g in
  Run.outcome updated = inr tt
  /\ Run.outcome (run h (getProjectConfig token project) (Run.final updated))
     = inr (JSON_parse (JSON_stringify config))
  /\ (forall branch path,
        path ≠ CONFIG_FILE_NAME ->
        GitHub.files_at (Run.final updated) branch !! path = GitHub.files_at g branch !! path).
Proof.
  intros Hbranch Hfile Htext h updated.
  destruct (updateConfigFile_github git_hash g token project config) as [Hout Hfinal].
  fold h updated in Hout, Hfinal. clearbody updated.
  apply String.eqb_neq in Hbranch. rewrite Hbranch in Hout, Hfinal.
  unfold GitHub.write_file in Hout, Hfinal. simpl in Hout, Hfinal.
  assert (Hwritten : Run.outcome updated = inr tt
            /\ Run.final updated
               = GitHub.put g (Project.branch project) CONFIG_FILE_NAME
                   (JSON_stringify config) (git_hash (JSON_stringify config))).
  { destruct (GitHub.files_at g (Project.branch project) !! CONFIG_FILE_NAME)
      as [[c s|s]|] eqn:Hg.
    - rewrite String.eqb_refl in Hout, Hfinal. by split.
    - by destruct (Hfile s).
    - by split. }
  destruct Hwritten as [Hok ->].
  split; [exact Hok|]. split.
  - unfold h. rewrite getProjectConfig_github. simpl. rewrite files_at_put.
    apply String.eqb_neq in Htext. by rewrite Htext.
  - intros branch path Hpath. rewrite files_at_put_lookup.
    rewrite decide_False; [done|]. intros [_ Heq]. by subst.
Qed.

Lemma updateConfigFile_then_getProjectConfig_witness :
  let h := GitHub.handler (fun text => "sha:" +:+ text) (fun g => g) in
  let g := GitHub.put (GitHub.mk "main" ∅) "main" CONFIG_FILE_NAME "old" "sha:old" in
  let updated :=
    run h (@updateConfigFile sample_builtins "token" sample_project
             (ProjectConfig.mk None [] [])) g in
  Run.outcome updated = inr tt
  /\ Run.outcome (run h (@getProjectConfig sample_json "token" sample_project)
                      (Run.final updated))
     = inr (Some (ProjectConfig.mk None [] [])).
Proof.
  destruct (@updateConfigFile_then_getProjectConfig sample_builtins sample_json
              (fun text => "sha:" +:+ text)
              (GitHub.put (GitHub.mk "main" ∅) "main" CONFIG_FILE_NAME "old" "sha:old")
              "token" sample_project (ProjectConfig.mk None [] []))
    as (Hok & Hread & _).
  - discriminate.
  - intros sha. vm_compute. discriminate.
  - discriminate.
  - split; [exact Hok|exact Hread].
Defined.

(** X6. Without other writers, for a project without a branch name in a
    repository whose default branch is not [master]: [updateConfigFile]
    reads the identifier on the default branch and writes on [master], so
    the default branch is left as it was and [getProjectConfig] returns
    afterwards what it returned before. *)
Theorem updateConfigFile_without_branch_writes_master `{Builtins} `{JsonParse}
    (git_hash : string -> string) (g : GitHub.t) (token : string)
    (project : Project.t) (config : ProjectConfig.t) :
  Project.branch project = "" ->
  GitHub.default_branch g ≠ "master" ->
  let h := GitHub.handler git_hash (fun g => g) in
  let updated := run h (updateConfigFile token project config) g in
  (forall path,
     GitHub.files_at (Run.final updated) (Project.branch project) !! path
     = GitHub.files_at g (Project.branch project) !! path)
  /\ Run.outcome (run h (getProjectConfig token project) (Run.final updated))
     = Run.outcome (run h (getProjectConfig token project) g)
  /\ (Run.outcome updated = inr tt ->
        GitHub.files_at (Run.final updated) "master" !! CONFIG_FILE_NAME
        = Some (GitHub.Blob (JSON_stringify config) (git_hash (JSON_stringify config)))).
Proof.
  intros Hbranch Hdefault h updated.
  destruct (updateConfigFile_github git_hash g token project config) as [Hout Hfinal].
  fold h updated in Hout, Hfinal. clearbody updated.
  rewrite Hbranch in Hout, Hfinal |- *.
  simpl in Hout, Hfinal.
  unfold GitHub.write_file in Hout, Hfinal. simpl in Hout, Hfinal.
  set (written := GitHub.put g "master" CONFIG_FILE_NAME (JSON_stringify config)
                    (git_hash (JSON_stringify config))) in *.
  assert (Hcases : (Run.final updated = g /\ Run.outcome updated ≠ inr tt)
                   \/ Run.final updated = written).
  { destruct (GitHub.files_at g "master" !! CONFIG_FILE_NAME) as [[c s|s]|];
      destruct (match GitHub.files_at g "" !! CONFIG_FILE_NAME with
                | Some (GitHub.Blob _ sha) => Some sha
                | _ => None
                end) as [b|]; try destruct (String.eqb b s);
      simpl in Hout, Hfinal; try (by right); left; by rewrite Hout. }
  assert (Hsame : forall path,
            GitHub.files_at (Run.final updated) "" !! path = GitHub.files_at g "" !! path).
  { intros path. destruct Hcases as [[-> _]| ->]; [done|].
    unfold written. rewrite files_at_put_lookup. rewrite decide_False; [done|].
    intros [Hb _]. unfold GitHub.resolve in Hb. simpl in Hb. congruence. }
  split; [exact Hsame|]. split.
  - unfold h. rewrite !getProjectConfig_github. rewrite Hbranch. by rewrite Hsame.
  - intros Hok. destruct Hcases as [[_ Hne]| ->]; [done|]. apply files_at_put.
Qed.

Lemma updateConfigFile_without_branch_writes_master_witness :
  let h := GitHub.handler (fun text => "sha:" +:+ text) (fun g => g) in
  let g := GitHub.put (GitHub.mk "main" ∅) "" CONFIG_FILE_NAME "old" "sha:old" in
  let project := Project.mk 1 "ana" "Site" "ana/site" "" in
  let updated :=
    run h (@updateConfigFile sample_builtins "token" project (ProjectConfig.mk None [] [])) g in
  GitHub.files_at (Run.final updated) "" !! CONFIG_FILE_NAME
  = Some (GitHub.Blob "old" "sha:old")
  /\ Run.outcome (run h (@getProjectConfig sample_json "token" project) (Run.final updated))
     = inr None.
Proof.
  destruct (@updateConfigFile_without_branch_writes_master sample_builtins sample_json
              (fun text => "sha:" +:+ text)
              (GitHub.put (GitHub.mk "main" ∅) "" CONFIG_FILE_NAME "old" "sha:old")
              "token" (Project.mk 1 "ana" "Site" "ana/site" "") (ProjectConfig.mk None [] []))
    as (Hsame & Hread & _).
  - reflexivity.
  - discriminate.
  - split.
    + etransitivity; [exact (Hsame CONFIG_FILE_NAME)|]. vm_compute. reflexivity.
    + etransitivity; [exact Hread|]. vm_compute. reflexivity.
Defined.

(** ** More on the loader and the order builder *)

Lemma for_push_no_calls {A B : Type} (body : A -> Prog B) (l : list A) (acc : list B) :
  (forall x, no_calls (body x)) -> no_calls (for_push l body acc).
Proof.
  intros Hbody. revert acc. induction l as [|x l IH]; intros acc; simpl.
  - left. by eexists.
  - unfold mbind, prog_bind. destruct (Hbody x) as [[y ->]|[r ->]]; simpl.
    + apply IH.
    + right. by eexists.
Qed.

Lemma parse_or_throw_no_calls `{PathUtils} `{FrontMatter} (collectionTree : list (Obj TreeItem.t))
    (contents : list (option ParsedFile.t)) (f : Obj TreeItem.t) :
  no_calls (parse_or_throw collectionTree contents f).
Proof.
  unfold parse_or_throw.
  destruct (nth_js contents (indexOf collectionTree f)) as [[fileContent|]|];
    [left|right|right]; by eexists.
Qed.

(** X7. Against a listing and a fetch function, the loader issues one
    listing and then one fetch per selected entry, in the order of the
    tree, whether it then succeeds or fails on a missing content; it never
    writes. *)
Theorem getCollectionFiles_reads_only `{PathUtils} `{FrontMatter} `{Builtins} `{ArraySort}
    (token : string) (project : Project.t) (collection : ProjectCollection.t)
    (tree : list TreeItem.t) (fetch : string -> option ParsedFile.t) :
  let r := run (snapshot tree fetch) (getCollectionFiles token project collection) tt in
  Run.requests r
  = ReqGetRepoFiles token (Project.repo project) (Project.branch project)
    :: map (fun f : Obj TreeItem.t =>
              ReqGetFileContent token
                (GetFileParams.mk (TreeItem.path (val f)) (Project.repo project)
                                  (Project.branch project)))
           (List.filter (in_collection collection) (fresh tree))
  /\ List.filter is_write (Run.requests r) = [].
Proof.
  intros r.
  assert (Hrequests : Run.requests r
    = ReqGetRepoFiles token (Project.repo project) (Project.branch project)
      :: map (fun f : Obj TreeItem.t =>
                ReqGetFileContent token
                  (GetFileParams.mk (TreeItem.path (val f)) (Project.repo project)
                                    (Project.branch project)))
             (List.filter (in_collection collection) (fresh tree))).
  { unfold r, getCollectionFiles. rewrite run_bind. simpl.
    rewrite run_bind, run_Promise_all_snapshot. simpl. rewrite run_bind.
    match goal with
    | |- context [for_push ?l ?body ?acc] =>
        destruct (for_push_no_calls body l acc) as [[docs ->]|[resp ->]]
    end.
    - intros f. apply parse_or_throw_no_calls.
    - simpl. by rewrite !app_nil_r.
    - simpl. by rewrite !app_nil_r. }
  split; [exact Hrequests|]. rewrite Hrequests. clear Hrequests. simpl.
  induction (List.filter (in_collection collection) (fresh tree)) as [|f l IH]; [done|].
  simpl. exact IH.
Qed.

Lemma indexOf_from_first {A : Type} (l : list (Obj A)) (x : Obj A) (start : Z) (i : nat) :
  l !! i = Some x ->
  exists k : nat,
    indexOf_from start l x = (start + Z.of_nat k)%Z /\ k <= i
    /\ (exists y, l !! k = Some y /\ oid y = oid x)
    /\ (forall j y, j < k -> l !! j = Some y -> oid y ≠ oid x).
Proof.
  revert start i. induction l as [|y l IH]; intros start i Hi; [done|]. simpl.
  destruct (Nat.eqb_spec (oid y) (oid x)) as [Heq|Hne].
  - exists 0. split; [lia|]. split; [lia|]. split; [by exists y|]. intros j z Hj. lia.
  - destruct i as [|i]; [simpl in Hi; by injection Hi as ->|]. simpl in Hi.
    destruct (IH (start + 1)%Z i Hi) as (k & Hk & Hle & (z & Hz & Hoid) & Hfirst).
    exists (S k). split; [lia|]. split; [lia|]. split; [by exists z|].
    intros [|j] w Hj Hw; simpl in Hw; [by injection Hw as <-|].
    apply (Hfirst j w); [lia|done].
Qed.

(** X8. For any payload, also one in which an object occurs more than
    once: the [order] written for the document at position [i], when it
    has an [order] attribute, is the first position [k] of the payload that
    holds the same object, so it is a position of the payload and never
    beyond [i]. *)
Theorem updateCollectionFileOrder_order_is_first_position
    (files : list (Obj CollectionFile.t)) (i : nat) (f : Obj CollectionFile.t) :
  files !! i = Some f ->
  is_Some (get (CollectionFile.attributes (val f)) "order") ->
  exists k : nat,
    get (written_attributes files f) "order" = Some (VNum (Z.of_nat k))
    /\ serialize files f
       = render (written_attributes files f) (CollectionFile.body (val f))
    /\ k <= i /\ k < length files
    /\ (exists f', files !! k = Some f' /\ oid f' = oid f)
    /\ (forall j f', j < k -> files !! j = Some f' -> oid f' ≠ oid f).
Proof.
  intros Hi [v Hv].
  destruct (indexOf_from_first files f 0 i Hi) as (k & Hk & Hle & Hsame & Hfirst).
  exists k. split.
  { rewrite get_written, Hv. simpl. unfold order_or_value, indexOf. simpl.
    by rewrite Hk. }
  split; [apply serialize_render|]. split; [exact Hle|].
  split; [|by split].
  apply lookup_lt_Some in Hi. lia.
Qed.

Lemma updateCollectionFileOrder_order_is_first_position_witness :
  exists k : nat,
    get (written_attributes [sample_ordered 0 7 "a"; sample_ordered 1 7 "b";
                             sample_ordered 0 7 "a"]
                            (sample_ordered 0 7 "a")) "order"
    = Some (VNum (Z.of_nat k)) /\ k <= 2.
Proof.
  destruct (updateCollectionFileOrder_order_is_first_position
              [sample_ordered 0 7 "a"; sample_ordered 1 7 "b"; sample_ordered 0 7 "a"]
              2 (sample_ordered 0 7 "a") eq_refl)
    as (k & Hk & _ & Hle & _).
  - by eexists.
  - exists k. by split.
Defined.

Section Reload.
Context `{Builtins}.

Lemma stable_sort_by_order_sorted_id (l : list CollectionFile.t) :
  StronglySorted order_le l -> stable_sort by_order l = l.
Proof.
  induction l as [|x l IH]; intros Hsorted; [done|].
  apply StronglySorted_inv in Hsorted as [Hl Hx]. simpl. rewrite (IH Hl).
  destruct l as [|y l']; [done|]. simpl.
  apply Forall_cons in Hx as [Hxy _]. unfold order_le in Hxy.
  unfold SortCompare, by_order.
  destruct (order_of x) as [a|], (order_of y) as [b|]; try done. simpl.
  destruct (Z.leb_spec (a - b) 0); [done|lia].
Qed.

Lemma counted_orders_sorted (l : list CollectionFile.t) (start : nat) :
  map order_of l = map (fun i => Some (Z.of_nat i)) (seq start (length l)) ->
  StronglySorted order_le l.
Proof.
  revert start. induction l as [|x l IH]; intros start Horders; [constructor|].
  simpl in Horders. injection Horders as Hx Hl.
  apply SSorted_cons; [by apply (IH (S start))|].
  apply Forall_forall. intros y Hy.
  apply list_elem_of_lookup_1 in Hy as [j Hj].
  assert (Hy : order_of y = Some (Z.of_nat (S start + j))).
  { assert (Hm : map order_of l !! j = Some (order_of y)) by (by rewrite list_lookup_fmap, Hj).
    rewrite Hl, list_lookup_fmap in Hm.
    rewrite lookup_seq_lt in Hm by (by eapply lookup_lt_Some). simpl in Hm.
    by injection Hm as <-. }
  unfold order_le. rewrite Hx, Hy. lia.
Qed.

End Reload.

(** X9. Reorder, then reload. When the documents of the payload are
    distinct objects, each with an [order] attribute and attributes that
    the written format can carry, parsing the texts that the order builder
    writes gives documents numbered [0 .. n-1] in the order of the payload,
    and sorting them as the loader does leaves them in that order. *)
Theorem reorder_then_reload_keeps_payload_order (P : PathUtils) (B : Builtins)
    (E : ArraySort) (files : list (Obj CollectionFile.t)) :
  NoDup (map oid files) ->
  Forall (fun f =>
            is_Some (get (CollectionFile.attributes (val f)) "order")
            /\ wf_object (CollectionFile.attributes (val f)) = true) files ->
  let reloaded :=
    map (fun f =>
           @processFileContent P FrontMatterModel.instance
             (ParsedFile.mk (serialize files f) (CollectionFile.id (val f))
                            (CollectionFile.path (val f)))) files in
  map order_of reloaded = map (fun i => Some (Z.of_nat i)) (seq 0 (length files))
  /\ sort by_order reloaded = reloaded
  /\ map CollectionFile.path reloaded = map (fun f => CollectionFile.path (val f)) files.
Proof.
  intros Hnd Hall reloaded.
  assert (Horders : map order_of reloaded
            = map (fun i => Some (Z.of_nat i)) (seq 0 (length files))).
  { unfold reloaded. rewrite map_map. apply list_eq. intros i.
    rewrite !list_lookup_fmap.
    destruct (files !! i) as [f|] eqn:Hf; simpl.
    - rewrite lookup_seq_lt by (by eapply lookup_lt_Some). simpl. f_equal.
      assert (Hin : f ∈ files) by (by eapply list_elem_of_lookup_2).
      destruct (proj1 (Forall_forall _ _) Hall f Hin) as [[v Hv] Hwf].
      unfold order_of, processFileContent. simpl.
      rewrite Codec.matter_serialize by done. simpl.
      rewrite get_written, Hv. simpl. unfold order_or_value. simpl.
      by rewrite (indexOf_lookup files f i).
    - rewrite lookup_seq_ge; [done|]. by apply lookup_ge_None. }
  split; [exact Horders|]. split.
  - rewrite sort_stable_sort.
    + apply stable_sort_by_order_sorted_id. apply (counted_orders_sorted reloaded 0).
      rewrite Horders. unfold reloaded. by rewrite length_map.
    + apply by_order_numeric_consistent, Forall_forall. intros d Hd.
      apply list_elem_of_lookup_1 in Hd as [j Hj].
      assert (Hm : map order_of reloaded !! j = Some (order_of d))
        by (by rewrite list_lookup_fmap, Hj).
      rewrite Horders, list_lookup_fmap in Hm.
      destruct (seq 0 (length files) !! j) as [n|]; [|done].
      injection Hm as <-. by eexists.
  - unfold reloaded. rewrite map_map. by apply map_ext.
Qed.

Lemma reorder_then_reload_keeps_payload_order_witness :
  let files := [sample_ordered 0 2 "c"; sample_ordered 1 0 "a"; sample_ordered 2 1 "b"] in
  let reloaded :=
    map (fun f =>
           @processFileContent PathUtilsModel.instance FrontMatterModel.instance
             (ParsedFile.mk (serialize files f) (CollectionFile.id (val f))
                            (CollectionFile.path (val f)))) files in
  map (@order_of sample_builtins) reloaded = [Some 0%Z; Some 1%Z; Some 2%Z]
  /\ @sort insertion_engine _ (@by_order sample_builtins) reloaded = reloaded.
Proof.
  destruct (reorder_then_reload_keeps_payload_order PathUtilsModel.instance sample_builtins
              insertion_engine
              [sample_ordered 0 2 "c"; sample_ordered 1 0 "a"; sample_ordered 2 1 "b"])
    as (Horders & Hsorted & _).
  - apply (bool_decide_unpack _). vm_compute. exact I.
  - repeat constructor; by eexists.
  - split; [exact Horders|exact Hsorted].
Defined.

(** ** The project registry *)

Lemma Number_toString_inj (a b : Z) : Number_toString a = Number_toString b -> a = b.
Proof.
  intros Heq. pose proof (scalar_Number_toString a) as Ha.
  rewrite Heq, scalar_Number_toString in Ha. by injection Ha.
Qed.

Lemma projects_key_inj (u v : string) : projects_key u = projects_key v -> u = v.
Proof. unfold projects_key. cbv [append]. by intros [= ->]. Qed.

Lemma project_key_inj (a b : Z) : project_key a = project_key b -> a = b.
Proof.
  unfold project_key. intros Heq. apply Number_toString_inj.
  change ("project:" +:+ Number_toString a) with
    (String "p" (String "r" (String "o" (String "j" (String "e" (String "c"
      (String "t" (String ":" (Number_toString a))))))))) in Heq.
  change ("project:" +:+ Number_toString b) with
    (String "p" (String "r" (String "o" (String "j" (String "e" (String "c"
      (String "t" (String ":" (Number_toString b))))))))) in Heq.
  by injection Heq.
Qed.

Lemma repo_key_inj (r s : string) : repo_key r = repo_key s -> r = s.
Proof. unfold repo_key. cbv [append]. by intros [= ->]. Qed.

Lemma projects_key_not_project (u : string) (a : Z) : projects_key u ≠ project_key a.
Proof.
  unfold projects_key, project_key. intros Heq.
  change ("project:" +:+ Number_toString a) with
    (String "p" (String "r" (String "o" (String "j" (String "e" (String "c"
      (String "t" (String ":" (Number_toString a))))))))) in Heq.
  cbv [append] in Heq. discriminate.
Qed.

Lemma projects_key_not_repo (u r : string) : projects_key u ≠ repo_key r.
Proof. unfold projects_key, repo_key. cbv [append]. discriminate. Qed.

Lemma project_key_not_repo (a : Z) (r : string) : project_key a ≠ repo_key r.
Proof.
  unfold project_key, repo_key. intros Heq.
  change ("project:" +:+ Number_toString a) with
    (String "p" (String "r" (String "o" (String "j" (String "e" (String "c"
      (String "t" (String ":" (Number_toString a))))))))) in Heq.
  cbv [append] in Heq. discriminate.
Qed.

Lemma projects_key_not_next (u : string) : projects_key u ≠ NEXT_PROJECT_KEY.
Proof. unfold projects_key, NEXT_PROJECT_KEY. cbv [append]. discriminate. Qed.

Lemma project_key_not_next (a : Z) : project_key a ≠ NEXT_PROJECT_KEY.
Proof.
  unfold project_key, NEXT_PROJECT_KEY. intros Heq.
  change ("project:" +:+ Number_toString a) with
    (String "p" (String "r" (String "o" (String "j" (String "e" (String "c"
      (String "t" (String ":" (Number_toString a))))))))) in Heq.
  discriminate.
Qed.

Lemma repo_key_not_next (r : string) : repo_key r ≠ NEXT_PROJECT_KEY.
Proof. unfold repo_key, NEXT_PROJECT_KEY. cbv [append]. discriminate. Qed.

(** X10. The keys of the registry never collide: the key of a user's
    index, the key of a project record, the key of a repository and the key
    of the counter are pairwise different, and each kind of key determines
    the user, the identifier or the repository it was built from. *)
Theorem registry_keys_never_collide :
  (forall u v, projects_key u = projects_key v -> u = v)
  /\ (forall a b, project_key a = project_key b -> a = b)
  /\ (forall r s, repo_key r = repo_key s -> r = s)
  /\ (forall u a, projects_key u ≠ project_key a)
  /\ (forall u r, projects_key u ≠ repo_key r)
  /\ (forall a r, project_key a ≠ repo_key r)
  /\ (forall u, projects_key u ≠ NEXT_PROJECT_KEY)
  /\ (forall a, project_key a ≠ NEXT_PROJECT_KEY)
  /\ (forall r, repo_key r ≠ NEXT_PROJECT_KEY).
Proof.
  repeat split.
  - apply projects_key_inj.
  - apply project_key_inj.
  - apply repo_key_inj.
  - apply projects_key_not_project.
  - apply projects_key_not_repo.
  - apply project_key_not_repo.
  - apply projects_key_not_next.
  - apply project_key_not_next.
  - apply repo_key_not_next.
Qed.

Create HintDb registry_keys.
#[local] Hint Resolve projects_key_not_project projects_key_not_repo project_key_not_repo
  projects_key_not_next project_key_not_next repo_key_not_next : registry_keys.

Lemma neq_sym_key (a b : string) : a ≠ b -> b ≠ a.
Proof. intros Hne Heq. by apply Hne. Qed.

Ltac key_neq :=
  first [ by auto with registry_keys
        | by (apply neq_sym_key; auto with registry_keys) ].

Lemma incr_next (db : Redis.t) (id : Z) :
  next_id db id ->
  Redis.incr NEXT_PROJECT_KEY db
  = (inr id, <[NEXT_PROJECT_KEY := Redis.Json (Redis.JNum id)]> db).
Proof.
  unfold Redis.incr. intros [[-> ->]|(n & -> & Hn & ->)]; [done|].
  unfold Redis.max_int64. destruct (Z.ltb_spec n 9223372036854775807); [done|lia].
Qed.

Lemma createProject_run (project : NewProject.t) (db : Redis.t) (id : Z) :
  next_id db id ->
  index_ok db (NewProject.user project) ->
  createProject project db
  = (inr id,
     <[repo_key (NewProject.repo project) := Redis.Json (Redis.JNum id)]>
       (<[project_key id := Redis.Json (Redis.JProj (with_id project id))]>
          (<[projects_key (NewProject.user project) :=
               Redis.Members ({[id]} ∪ members_of db (NewProject.user project))]>
             (<[NEXT_PROJECT_KEY := Redis.Json (Redis.JNum id)]> db)))).
Proof.
  intros Hnext Hindex. unfold createProject, mbind, Redis.registry_bind, Redis.bind.
  rewrite (incr_next db id Hnext). simpl. unfold Redis.sadd, Redis.set, members_of.
  rewrite lookup_insert_ne by key_neq.
  destruct Hindex as [->|[s ->]]; simpl.
  - by rewrite (right_id_L ∅ (∪)).
  - done.
Qed.

(** X11. [createProject] on a registry whose counter is absent or a safe
    number, for a user whose index is absent or a set: it succeeds with the
    next identifier; afterwards the record of that identifier is the
    project with its identifier, the repository leads to the identifier
    whatever it led to before, the index of the user has the identifier and
    what it had, and every other key is as it was. *)
Theorem createProject_registers (project : NewProject.t) (db : Redis.t) (id : Z) :
  next_id db id ->
  index_ok db (NewProject.user project) ->
  let after := snd (createProject project db) in
  fst (createProject project db) = inr id
  /\ fst (getProject id after) = inr (Some (Redis.JProj (with_id project id)))
  /\ fst (getIdForRepo (NewProject.repo project) after) = inr (Some (Redis.JNum id))
  /\ members_of after (NewProject.user project)
     = {[id]} ∪ members_of db (NewProject.user project)
  /\ (forall key,
        key ≠ NEXT_PROJECT_KEY -> key ≠ projects_key (NewProject.user project) ->
        key ≠ project_key id -> key ≠ repo_key (NewProject.repo project) ->
        after !! key = db !! key).
Proof.
  intros Hnext Hindex after. unfold after. rewrite (createProject_run project db id) by done.
  simpl. split; [done|].
  unfold getProject, getIdForRepo, Redis.get, members_of.
  split; [|split; [|split]].
  - rewrite lookup_insert_ne by key_neq. by rewrite lookup_insert_eq.
  - by rewrite lookup_insert_eq.
  - rewrite !lookup_insert_ne by key_neq. by rewrite lookup_insert_eq.
  - intros key H1 H2 H3 H4. by rewrite !lookup_insert_ne.
Qed.

Lemma createProject_registers_witness :
  fst (createProject sample_new_project ∅) = inr 1%Z
  /\ fst (getIdForRepo "ana/site" (snd (createProject sample_new_project ∅)))
     = inr (Some (Redis.JNum 1)).
Proof.
  destruct (createProject_registers sample_new_project ∅ 1) as (Hid & _ & Hrepo & _).
  - left. split; reflexivity.
  - left. reflexivity.
  - split; [exact Hid|exact Hrepo].
Defined.

(** X12. [updateProject] replaces the record of the project and nothing
    else: the counter, the index of every user and every repository key are
    as they were, also when the new record names another user or another
    repository than the old one. *)
Theorem updateProject_leaves_indices (project : Project.t) (db : Redis.t) :
  let after := snd (updateProject project db) in
  fst (updateProject project db) = inr tt
  /\ fst (getProject (Project.id project) after) = inr (Some (Redis.JProj project))
  /\ (forall key, key ≠ project_key (Project.id project) -> after !! key = db !! key)
  /\ (forall repo, getIdForRepo repo after = (fst (getIdForRepo repo db), after))
  /\ (forall user, members_of after user = members_of db user).
Proof.
  intros after. unfold after, updateProject, Redis.set. simpl.
  split; [done|]. split; [|split; [|split]].
  - unfold getProject, Redis.get. by rewrite lookup_insert_eq.
  - intros key Hkey. by rewrite lookup_insert_ne.
  - intros repo. unfold getIdForRepo, Redis.get. rewrite lookup_insert_ne by key_neq.
    by destruct (db !! repo_key repo) as [[j|s]|].
  - intros user. unfold members_of. by rewrite lookup_insert_ne by key_neq.
Qed.

Lemma index_ok_members (db : Redis.t) (user : string) :
  index_ok db user ->
  Redis.smembers (projects_key user) db = (inr (elements (members_of db user)), db).
Proof.
  unfold Redis.smembers, members_of. intros [->|[s ->]]; [|done].
  by rewrite elements_empty.
Qed.

Lemma deleteProject_run (project : Project.t) (db : Redis.t) :
  index_ok db (Project.user project) ->
  exists replies after,
    deleteProject project db = (inr replies, after)
    /\ after !! project_key (Project.id project) = None
    /\ after !! repo_key (Project.repo project) = None
    /\ members_of after (Project.user project)
       = members_of db (Project.user project) ∖ {[Project.id project]}
    /\ index_ok after (Project.user project)
    /\ (forall key,
          key ≠ projects_key (Project.user project) ->
          key ≠ project_key (Project.id project) ->
          key ≠ repo_key (Project.repo project) ->
          after !! key = db !! key).
Proof.
  intros Hindex.
  set (user := Project.user project) in *. set (id := Project.id project) in *.
  set (repo := Project.repo project) in *.
  assert (Hsrem : exists reply db1,
            Redis.srem (projects_key user) id db = (inr reply, db1)
            /\ members_of db1 user = members_of db user ∖ {[id]}
            /\ index_ok db1 user
            /\ (forall key, key ≠ projects_key user -> db1 !! key = db !! key)).
  { unfold Redis.srem, members_of, index_ok.
    destruct Hindex as [Hnone|[s Hs]].
    - rewrite Hnone. exists 0%Z, db. rewrite Hnone. split; [done|].
      split; [symmetry; apply set_eq; intros x; rewrite elem_of_difference, elem_of_empty; tauto|].
      split; [by left|done].
    - rewrite Hs. destruct (decide (id ∈ s)) as [Hin|Hout].
      + destruct (decide (s ∖ {[id]} = ∅)) as [Hempty|Hleft].
        * exists 1%Z, (delete (projects_key user) db). rewrite lookup_delete_eq.
          split; [done|]. split; [by rewrite Hempty|]. split; [by left|].
          intros key Hkey. by rewrite lookup_delete_ne.
        * exists 1%Z, (<[projects_key user := Redis.Members (s ∖ {[id]})]> db).
          rewrite lookup_insert_eq. split; [done|]. split; [done|].
          split; [right; by eexists|]. intros key Hkey. by rewrite lookup_insert_ne.
      + exists 0%Z, db. rewrite Hs. split; [done|].
        split; [symmetry; apply difference_disjoint_L, disjoint_singleton_r, Hout|].
        split; [right; by eexists|done]. }
  destruct Hsrem as (reply & db1 & Hrun & Hmembers & Hok & Hframe).
  assert (Hdel : forall key (d : Redis.t),
            exists n, Redis.del key d = (inr n, delete key d)).
  { intros key d. unfold Redis.del. destruct (d !! key) eqn:Hd; [by eexists|].
    exists 0%Z. by rewrite delete_id. }
  destruct (Hdel (project_key id) db1) as [n1 Hn1].
  destruct (Hdel (repo_key repo) (delete (project_key id) db1)) as [n2 Hn2].
  exists [reply; n1; n2], (delete (repo_key repo) (delete (project_key id) db1)).
  split.
  { unfold deleteProject. fold user id repo. simpl. by rewrite Hrun, Hn1, Hn2. }
  split; [rewrite lookup_delete_ne by key_neq; by rewrite lookup_delete_eq|].
  split; [by rewrite lookup_delete_eq|].
  split.
  { rewrite <- Hmembers. unfold members_of. by rewrite !lookup_delete_ne by key_neq. }
  split.
  { unfold index_ok in *. by rewrite !lookup_delete_ne by key_neq. }
  intros key H1 H2 H3. rewrite !lookup_delete_ne by done. by apply Hframe.
Qed.

(** X13. [deleteProject] for a user whose index is absent or a set: it
    succeeds; afterwards there is no record of the project, its repository
    leads to no identifier, whatever identifier it led to before, its
    identifier has left the index of its user, and every other key, the
    counter among them, is as it was. *)
Theorem deleteProject_unregisters (project : Project.t) (db : Redis.t) :
  index_ok db (Project.user project) ->
  let after := snd (deleteProject project db) in
  (exists replies, fst (deleteProject project db) = inr replies /\ length replies = 3)
  /\ fst (getProject (Project.id project) after) = inr None
  /\ fst (getIdForRepo (Project.repo project) after) = inr None
  /\ members_of after (Project.user project)
     = members_of db (Project.user project) ∖ {[Project.id project]}
  /\ after !! NEXT_PROJECT_KEY = db !! NEXT_PROJECT_KEY
  /\ (forall key,
        key ≠ projects_key (Project.user project) ->
        key ≠ project_key (Project.id project) ->
        key ≠ repo_key (Project.repo project) ->
        after !! key = db !! key).
Proof.
  intros Hindex after.
  destruct (deleteProject_run project db Hindex)
    as (replies & db' & Hrun & Hrecord & Hrepo & Hmembers & _ & Hframe).
  assert (Hlen : length replies = 3).
  { revert Hrun. unfold deleteProject, Redis.all.
    destruct (Redis.srem _ _ db) as [[e|a] d1]; [done|].
    destruct (Redis.del _ d1) as [[e|b] d2]; [done|].
    destruct (Redis.del _ d2) as [[e|c] d3]; [done|]. simpl. by intros [= <- _]. }
  unfold after. rewrite Hrun. simpl.
  split; [by exists replies|].
  unfold getProject, getIdForRepo, Redis.get. rewrite Hrecord, Hrepo.
  split; [done|]. split; [done|]. split; [exact Hmembers|].
  split; [|exact Hframe]. apply Hframe; key_neq.
Qed.

Lemma deleteProject_unregisters_witness :
  let created := snd (createProject sample_new_project ∅) in
  let after := snd (deleteProject (with_id sample_new_project 1) created) in
  fst (getProject 1 after) = inr None
  /\ fst (getIdForRepo "ana/site" after) = inr None
  /\ after !! NEXT_PROJECT_KEY = Some (Redis.Json (Redis.JNum 1)).
Proof.
  destruct (deleteProject_unregisters (with_id sample_new_project 1)
              (snd (createProject sample_new_project ∅)))
    as (_ & Hrecord & Hrepo & _ & Hnext & _).
  - right. eexists. vm_compute. reflexivity.
  - split; [exact Hrecord|]. split; [exact Hrepo|].
    etransitivity; [exact Hnext|]. vm_compute. reflexivity.
Defined.

Lemma createProject_state (project : NewProject.t) (db : Redis.t) (id : Z) :
  next_id db id ->
  index_ok db (NewProject.user project) ->
  let after := snd (createProject project db) in
  after !! NEXT_PROJECT_KEY = Some (Redis.Json (Redis.JNum id))
  /\ after !! project_key id = Some (Redis.Json (Redis.JProj (with_id project id)))
  /\ after !! repo_key (NewProject.repo project) = Some (Redis.Json (Redis.JNum id))
  /\ (forall user, index_ok db user -> index_ok after user)
  /\ (forall key,
        key ≠ NEXT_PROJECT_KEY -> key ≠ projects_key (NewProject.user project) ->
        key ≠ project_key id -> key ≠ repo_key (NewProject.repo project) ->
        after !! key = db !! key).
Proof.
  intros Hnext Hindex after. unfold after.
  rewrite (createProject_run project db id) by done. simpl.
  split; [rewrite !lookup_insert_ne by key_neq; by rewrite lookup_insert_eq|].
  split; [rewrite lookup_insert_ne by key_neq; by rewrite lookup_insert_eq|].
  split; [by rewrite lookup_insert_eq|].
  split.
  - intros user Huser. unfold index_ok. rewrite !lookup_insert_ne by key_neq.
    destruct (decide (projects_key (NewProject.user project) = projects_key user))
      as [Heq|Hne].
    + rewrite Heq, lookup_insert_eq. right. by eexists.
    + rewrite !lookup_insert_ne by first [done|key_neq]. exact Huser.
  - intros key H1 H2 H3 H4. by rewrite !lookup_insert_ne.
Qed.

(** X14. Identifiers are not reused: after [createProject] returned [id]
    and [deleteProject] removed that project, the next [createProject]
    returns [id + 1]. *)
Theorem createProject_after_deleteProject_is_fresh (first second : NewProject.t)
    (db : Redis.t) (id : Z) :
  next_id db id ->
  (id < 9007199254740991)%Z ->
  index_ok db (NewProject.user first) ->
  index_ok db (NewProject.user second) ->
  let created := snd (createProject first db) in
  let deleted := snd (deleteProject (with_id first id) created) in
  fst (createProject second deleted) = inr (id + 1)%Z
  /\ fst (getProject id (snd (createProject second deleted))) = inr None.
Proof.
  intros Hnext Hsafe Hfirst Hsecond created deleted.
  destruct (createProject_state first db id Hnext Hfirst)
    as (Hcounter & _ & _ & Hok & _). fold created in Hcounter, Hok.
  destruct (deleteProject_run (with_id first id) created (Hok _ Hfirst))
    as (replies & db' & Hrun & Hrecord & _ & _ & Hsame & Hframe).
  simpl in Hrecord, Hsame, Hframe.
  assert (Hdeleted : deleted = db') by (unfold deleted; by rewrite Hrun).
  assert (Hnext' : next_id deleted (id + 1)).
  { right. exists id. rewrite Hdeleted, Hframe by key_neq. by rewrite Hcounter. }
  assert (Hsecond' : index_ok deleted (NewProject.user second)).
  { rewrite Hdeleted.
    destruct (decide (projects_key (NewProject.user first)
                      = projects_key (NewProject.user second))) as [Heq|Hne].
    - apply projects_key_inj in Heq. by rewrite <- Heq.
    - unfold index_ok. rewrite Hframe by first [by apply neq_sym_key|key_neq].
      by apply Hok. }
  destruct (createProject_state second deleted (id + 1) Hnext' Hsecond')
    as (_ & _ & _ & _ & Hframe').
  split; [by rewrite (createProject_run second deleted (id + 1))|].
  unfold getProject, Redis.get. rewrite Hframe'.
  - by rewrite Hdeleted, Hrecord.
  - key_neq.
  - key_neq.
  - intros Heq. apply project_key_inj in Heq. lia.
  - key_neq.
Qed.

Lemma createProject_after_deleteProject_is_fresh_witness :
  let created := snd (createProject sample_new_project ∅) in
  let deleted := snd (deleteProject (with_id sample_new_project 1) created) in
  fst (createProject sample_new_project deleted) = inr 2%Z.
Proof.
  destruct (createProject_after_deleteProject_is_fresh sample_new_project sample_new_project
              ∅ 1) as [Hid _].
  - left. split; reflexivity.
  - reflexivity.
  - left. reflexivity.
  - left. reflexivity.
  - exact Hid.
Defined.

(** X15. Nothing keeps a repository for one project: when two projects
    are created for the same repository, the repository leads to the second
    one, and deleting the first one removes the entry of the repository, so
    that it leads to no project although the second one is still there. *)
Theorem deleteProject_drops_shared_repo (first second : NewProject.t)
    (db : Redis.t) (id : Z) :
  next_id db id ->
  (id < 9007199254740991)%Z ->
  index_ok db (NewProject.user first) ->
  index_ok db (NewProject.user second) ->
  NewProject.repo first = NewProject.repo second ->
  let both := snd (createProject second (snd (createProject first db))) in
  let after := snd (deleteProject (with_id first id) both) in
  fst (getIdForRepo (NewProject.repo second) both) = inr (Some (Redis.JNum (id + 1)))
  /\ fst (getProject id both) = inr (Some (Redis.JProj (with_id first id)))
  /\ fst (getIdForRepo (NewProject.repo second) after) = inr None
  /\ fst (getProject (id + 1) after)
     = inr (Some (Redis.JProj (with_id second (id + 1)))).
Proof.
  intros Hnext Hsafe Hfirst Hsecond Hrepo both after.
  destruct (createProject_state first db id Hnext Hfirst)
    as (Hcounter & Hrecord1 & _ & Hok1 & _).
  set (one := snd (createProject first db)) in *.
  assert (Hnext2 : next_id one (id + 1)) by (right; by exists id).
  destruct (createProject_state second one (id + 1) Hnext2 (Hok1 _ Hsecond))
    as (_ & Hrecord2 & Hrepo2 & Hok2 & Hframe2).
  fold both in Hrecord2, Hrepo2, Hok2, Hframe2.
  assert (Hkept : both !! project_key id = Some (Redis.Json (Redis.JProj (with_id first id)))).
  { rewrite Hframe2; [done|key_neq|key_neq| |key_neq].
    intros Heq. apply project_key_inj in Heq. lia. }
  destruct (deleteProject_run (with_id first id) both (Hok2 _ (Hok1 _ Hfirst)))
    as (replies & db' & Hrun & _ & Hgone & _ & _ & Hframe).
  simpl in Hgone, Hframe.
  assert (Hafter : after = db') by (unfold after; by rewrite Hrun).
  unfold getIdForRepo, getProject, Redis.get.
  rewrite Hrepo2, Hkept, Hafter. rewrite <- Hrepo, Hgone.
  split; [done|]. split; [done|]. split; [done|].
  rewrite Hframe; [by rewrite Hrecord2|key_neq| |key_neq].
  intros Heq. apply project_key_inj in Heq. lia.
Qed.

Lemma deleteProject_drops_shared_repo_witness :
  let other := NewProject.mk "bea" "Docs" "ana/site" "main" in
  let both := snd (createProject other (snd (createProject sample_new_project ∅))) in
  let after := snd (deleteProject (with_id sample_new_project 1) both) in
  fst (getIdForRepo "ana/site" after) = inr None
  /\ fst (getProject 2 after) = inr (Some (Redis.JProj (with_id other 2))).
Proof.
  destruct (deleteProject_drops_shared_repo sample_new_project
              (NewProject.mk "bea" "Docs" "ana/site" "main") ∅ 1)
    as (_ & _ & Hrepo & Hrecord).
  - left. split; reflexivity.
  - reflexivity.
  - left. reflexivity.
  - left. reflexivity.
  - reflexivity.
  - split; [exact Hrepo|exact Hrecord].
Defined.

Section SortedImage.
Context {A B : Type} (f : A -> B).
Context (c : A -> A -> option Z) (c' : B -> B -> option Z).
Hypothesis c_image : forall a b, c' (f a) (f b) = c a b.

Lemma Consistent_fmap (l : list A) : Consistent c l -> Consistent c' (map f l).
Proof.
  intros Hc x y z Hx Hy Hz.
  apply list_elem_of_fmap in Hx as (a & -> & Ha).
  apply list_elem_of_fmap in Hy as (b & -> & Hb).
  apply list_elem_of_fmap in Hz as (d & -> & Hd).
  unfold SortCompare. rewrite !c_image. apply (Hc a b d Ha Hb Hd).
Qed.

Lemma StronglySorted_fmap_inv (l : list A) :
  StronglySorted (fun x y => (SortCompare c' x y <= 0)%Z) (map f l) ->
  StronglySorted (fun a b => (SortCompare c a b <= 0)%Z) l.
Proof.
  induction l as [|a l IH]; intros Hsorted; [constructor|].
  simpl in Hsorted. apply StronglySorted_inv in Hsorted as [Hl Ha].
  apply SSorted_cons; [by apply IH|].
  apply Forall_forall. intros b Hb.
  assert (Hfb : f b ∈ map f l) by (apply list_elem_of_fmap; by exists b).
  pose proof (proj1 (Forall_forall _ _) Ha (f b) Hfb) as Hle.
  unfold SortCompare in Hle |- *. by rewrite c_image in Hle.
Qed.

End SortedImage.

Lemma mget_records (db : Redis.t) (ids : list Z) :
  Redis.mget (map project_key ids) db = (inr (map (reply_of db) ids), db).
Proof. unfold Redis.mget. f_equal. f_equal. by rewrite map_map. Qed.

Lemma reply_of_record (db : Redis.t) (id : Z) (p : Project.t) :
  record_of db id = Some p <-> reply_of db id = Some (Redis.JProj p).
Proof.
  unfold record_of, reply_of.
  destruct (db !! project_key id) as [[[n|q]|s]|]; split; intros [=]; by subst.
Qed.

Lemma sample_locale_consistent (l : list Project.t) :
  Consistent (@title_order sample_locale) l.
Proof.
  intros a b c _ _ _. split; [by eexists|].
  unfold SortCompare, title_order. simpl. lia.
Qed.

Section UserProjects.
Context `{Locale} `{ArraySort}.

Lemma getUserProjects_run (user : string) (db : Redis.t) :
  index_ok db user ->
  getUserProjects user db
  = if Nat.eqb (size (members_of db user)) 0 then (inr [], db)
    else sort_by_title (map (reply_of db) (elements (members_of db user))) db.
Proof.
  intros Hindex. unfold getUserProjects, mbind, Redis.registry_bind, Redis.bind.
  rewrite (index_ok_members db user Hindex).
  change (length (elements (members_of db user))) with (size (members_of db user)).
  destruct (Nat.eqb (size (members_of db user)) 0); [done|].
  by rewrite mget_records.
Qed.

(** The comparator throws nothing but a [TypeError], and only on a reply
    that is not a project record. *)
Lemma by_title_throws (a b : option Redis.json) (e : Redis.failure) :
  by_title a b = inl e ->
  e = Redis.TypeError
  /\ ((forall p, a ≠ Some (Redis.JProj p)) \/ (forall p, b ≠ Some (Redis.JProj p))).
Proof.
  destruct a as [[n|p]|]; simpl.
  - intros [= <-]. split; [done|]. by left.
  - destruct b as [[m|q]|]; [done|done|]. intros [= <-]. split; [done|]. by right.
  - intros [= <-]. split; [done|]. by left.
Qed.

(** When every identifier of the index has a project record. *)
Lemma getUserProjects_records (user : string) (db : Redis.t) :
  index_ok db user ->
  (forall id, id ∈ members_of db user -> is_Some (record_of db id)) ->
  exists ps,
    getUserProjects user db = (inr (map (fun p => Some (Redis.JProj p)) ps), db)
    /\ Permutation (map Some ps) (map (record_of db) (elements (members_of db user)))
    /\ length ps = size (members_of db user)
    /\ (Consistent title_order ps -> StronglySorted title_le ps).
Proof.
  intros Hindex Hrecords. rewrite (getUserProjects_run user db Hindex).
  set (ids := members_of db user) in *.
  assert (Hps : exists ps0,
            map (record_of db) (elements ids) = map Some ps0
            /\ map (reply_of db) (elements ids)
               = map (fun p => Some (Redis.JProj p)) ps0).
  { assert (Hall : forall id, id ∈ elements ids -> is_Some (record_of db id)).
    { intros id Hid. apply Hrecords. by apply elem_of_elements. }
    induction (elements ids) as [|id l IH]; [by exists []|].
    destruct IH as (ps0 & Hps0 & Hreplies0).
    { intros x Hx. apply Hall, elem_of_cons. by right. }
    destruct (Hall id) as [p Hp]; [apply elem_of_cons; by left|].
    exists (p :: ps0). simpl. rewrite Hp, Hps0, Hreplies0.
    apply reply_of_record in Hp. by rewrite Hp. }
  destruct Hps as (ps0 & Hps0 & Hreplies).
  assert (Hlen : length ps0 = size ids).
  { transitivity (length (map Some ps0)); [by rewrite length_map|].
    by rewrite <- Hps0, length_map. }
  destruct (Nat.eqb_spec (size ids) 0) as [Hzero|Hpos].
  { exists []. split; [done|].
    assert (Hnil : ps0 = []) by (destruct ps0; [done|simpl in Hlen; lia]).
    rewrite Hps0, Hnil. split; [done|]. split; [done|]. intros _. constructor. }
  rewrite Hreplies. unfold sort_by_title.
  assert (Hpure : forall a b,
            a ∈ map (fun p => Some (Redis.JProj p)) ps0 ->
            b ∈ map (fun p => Some (Redis.JProj p)) ps0 ->
            by_title a b = inr (reply_order a b)).
  { intros a b Ha Hb.
    apply list_elem_of_fmap in Ha as (p & -> & _).
    by apply list_elem_of_fmap in Hb as (q & -> & _). }
  destruct (sort_with_returns by_title reply_order _ Hpure) as (r & Hr & Hperm).
  rewrite Hr.
  destruct (Permutation_map_inv _ _ Hperm) as (ps & -> & Hps).
  exists ps. split; [done|].
  split; [by rewrite Hps0, Hps|].
  split; [by rewrite <- Hlen, Hps|].
  intros Hconsistent.
  apply (StronglySorted_fmap_inv (fun p => Some (Redis.JProj p)) title_order reply_order);
    [done|].
  apply (sort_with_consistent by_title reply_order _ _ Hpure); [|exact Hr].
  apply (Consistent_fmap (fun p => Some (Redis.JProj p)) title_order reply_order); [done|].
  apply (Consistent_subset title_order ps); [|done].
  intros p Hp. by rewrite <- Hps.
Qed.

(** X16. [getUserProjects] for a user whose index is absent or a set.
    Without identifiers it returns the empty list. It never changes the
    store. When every identifier of the index has a project record, it
    returns those records, each identifier once, and in the order of the
    titles when [localeCompare] is a consistent comparator for them. It
    fails with nothing but a [TypeError], and only when some identifier of
    the index has no project record; what it returns is always the replies
    of [mget] in some order. *)
Theorem getUserProjects_lists_the_index (user : string) (db : Redis.t) :
  index_ok db user ->
  let ids := members_of db user in
  (ids = ∅ -> getUserProjects user db = (inr [], db))
  /\ snd (getUserProjects user db) = db
  /\ ((forall id, id ∈ ids -> is_Some (record_of db id)) ->
        exists ps,
          getUserProjects user db = (inr (map (fun p => Some (Redis.JProj p)) ps), db)
          /\ Permutation (map Some ps) (map (record_of db) (elements ids))
          /\ length ps = size ids
          /\ (Consistent title_order ps -> StronglySorted title_le ps))
  /\ (forall e, fst (getUserProjects user db) = inl e ->
        e = Redis.TypeError /\ exists id, id ∈ ids /\ record_of db id = None)
  /\ (forall replies, fst (getUserProjects user db) = inr replies ->
        Permutation replies (map (reply_of db) (elements ids))).
Proof.
  intros Hindex ids.
  split; [|split; [|split; [by apply getUserProjects_records|]]];
    rewrite (getUserProjects_run user db Hindex); fold ids.
  - intros ->. by rewrite size_empty.
  - destruct (Nat.eqb (size ids) 0); [done|]. unfold sort_by_title.
    by destruct (sort_with by_title _).
  - split.
    + intros e. destruct (Nat.eqb (size ids) 0); [done|]. unfold sort_by_title.
      destruct (sort_with by_title _) as [e'|r] eqn:Hsort; [|done]. intros [= <-].
      apply sort_with_abrupt in Hsort as (a & b & Ha & Hb & Hcall).
      apply by_title_throws in Hcall as [-> Hbad]. split; [done|].
      assert (Hdangling : forall x, x ∈ map (reply_of db) (elements ids) ->
                (forall p, x ≠ Some (Redis.JProj p)) ->
                exists id, id ∈ ids /\ record_of db id = None).
      { intros x Hx Hnot. apply list_elem_of_fmap in Hx as (id & -> & Hid).
        exists id. split; [by apply elem_of_elements|].
        destruct (record_of db id) as [p|] eqn:Hp; [|done].
        apply reply_of_record in Hp. by destruct (Hnot p). }
      destruct Hbad as [Hbad|Hbad]; [by apply (Hdangling a)|by apply (Hdangling b)].
    + intros replies. destruct (Nat.eqb_spec (size ids) 0) as [Hzero|_].
      * intros [= <-]. apply size_empty_inv in Hzero.
        assert (Hempty : ids = ∅) by (by apply leibniz_equiv).
        by rewrite Hempty, elements_empty.
      * unfold sort_by_title.
        destruct (sort_with by_title _) as [e'|r] eqn:Hsort; [done|]. intros [= <-].
        by apply sort_with_permutation in Hsort.
Qed.

End UserProjects.

Lemma getUserProjects_lists_the_index_witness :
  let db := snd (createProject sample_second_project
                   (snd (createProject sample_new_project ∅))) in
  exists ps,
    @getUserProjects sample_locale insertion_engine "ana" db
    = (inr (map (fun p => Some (Redis.JProj p)) ps), db)
    /\ length ps = 2
    /\ StronglySorted (@title_le sample_locale) ps.
Proof.
  intros db.
  destruct (@getUserProjects_lists_the_index sample_locale insertion_engine "ana" db)
    as (_ & _ & Hlist & _).
  - right. eexists. vm_compute. reflexivity.
  - destruct Hlist as (ps & Hrun & _ & Hlen & Hsorted).
    + assert (Hall : set_Forall (fun id => is_Some (record_of db id)) (members_of db "ana"))
        by (apply (bool_decide_unpack _); vm_compute; exact I).
      exact Hall.
    + exists ps. split; [exact Hrun|]. split; [rewrite Hlen; vm_compute; reflexivity|].
      apply Hsorted, sample_locale_consistent.
Defined.

(** X17. After [createProject] for a user whose identifiers all have a
    project record, [getUserProjects] for that user returns the new project
    among the project records of the user. *)
Theorem createProject_then_getUserProjects `{Locale} `{ArraySort} (project : NewProject.t)
    (db : Redis.t) (id : Z) :
  next_id db id ->
  index_ok db (NewProject.user project) ->
  (forall other, other ∈ members_of db (NewProject.user project) ->
                 is_Some (record_of db other)) ->
  let after := snd (createProject project db) in
  exists ps,
    getUserProjects (NewProject.user project) after
    = (inr (map (fun p => Some (Redis.JProj p)) ps), after)
    /\ with_id project id ∈ ps
    /\ (forall other p, other ∈ members_of db (NewProject.user project) ->
          other ≠ id -> record_of db other = Some p -> p ∈ ps).
Proof.
  intros Hnext Hindex Hrecords after.
  destruct (createProject_state project db id Hnext Hindex)
    as (_ & Hrecord & _ & Hok & Hframe). fold after in Hrecord, Hok, Hframe.
  assert (Hmembers : members_of after (NewProject.user project)
            = {[id]} ∪ members_of db (NewProject.user project)).
  { unfold after. rewrite (createProject_run project db id) by done. simpl.
    unfold members_of. rewrite !lookup_insert_ne by key_neq.
    by rewrite lookup_insert_eq. }
  assert (Hnew : record_of after id = Some (with_id project id)).
  { unfold record_of. by rewrite Hrecord. }
  assert (Hold : forall other, other ≠ id -> record_of after other = record_of db other).
  { intros other Hne. unfold record_of. rewrite Hframe; [done|key_neq|key_neq| |key_neq].
    intros Heq. by apply project_key_inj in Heq. }
  destruct (getUserProjects_records (NewProject.user project) after (Hok _ Hindex))
    as (ps & Hrun & Hperm & _).
  { intros other Hother. rewrite Hmembers in Hother.
    destruct (decide (other = id)) as [->|Hne]; [by rewrite Hnew|].
    rewrite Hold by done. apply Hrecords.
    apply elem_of_union in Hother as [Hone|Hrest]; [|done].
    by apply elem_of_singleton in Hone. }
  assert (Hin : forall other p, other ∈ members_of after (NewProject.user project) ->
            record_of after other = Some p -> p ∈ ps).
  { intros other p Hother Hp.
    assert (Hsome : Some p ∈ map Some ps).
    { rewrite Hperm. apply list_elem_of_fmap. exists other.
      split; [done|]. by apply elem_of_elements. }
    apply list_elem_of_fmap in Hsome as (q & [= ->] & Hq). exact Hq. }
  exists ps. split; [exact Hrun|]. split.
  - apply (Hin id); [|exact Hnew].
    rewrite Hmembers. apply elem_of_union. left. by apply elem_of_singleton.
  - intros other p Hother Hne Hp. apply (Hin other).
    { rewrite Hmembers. apply elem_of_union. by right. }
    by rewrite Hold.
Qed.

Lemma createProject_then_getUserProjects_witness :
  exists ps,
    @getUserProjects sample_locale insertion_engine "ana"
      (snd (createProject sample_new_project ∅))
    = (inr (map (fun p => Some (Redis.JProj p)) ps), snd (createProject sample_new_project ∅))
    /\ with_id sample_new_project 1 ∈ ps.
Proof.
  destruct (@createProject_then_getUserProjects sample_locale insertion_engine
              sample_new_project ∅ 1)
    as (ps & Hrun & Hin & _).
  - left. split; reflexivity.
  - left. reflexivity.
  - intros other Hother. vm_compute in Hother. discriminate.
  - exists ps. by split.
Defined.

(** ** Creating the configuration file among other writers *)

(** X18. [createConfigFile] among other writers. When the listing shows an
    entry at the path of the configuration file, nothing is written. When
    it shows none, the file is written without a base identifier: if
    another writer has created the file between the listing and the write,
    the call is rejected with [Conflict] and that file is kept; if the path
    is still free, the file is created with the default content. An
    existing file is never replaced. *)
Theorem createConfigFile_never_replaces (git_hash : string -> string)
    (others : GitHub.t -> GitHub.t) (g : GitHub.t) (token repo branch : string) :
  let r := run (GitHub.handler git_hash others) (createConfigFile token repo branch) g in
  let at_listing := others g in
  let at_write := others at_listing in
  (is_Some (GitHub.files_at at_listing branch !! CONFIG_FILE_NAME) ->
     Run.outcome r = inr tt /\ Run.final r = at_listing
     /\ Run.requests r = [ReqGetRepoFiles token repo branch])
  /\ (GitHub.files_at at_listing branch !! CONFIG_FILE_NAME = None ->
        Run.requests r = [ReqGetRepoFiles token repo branch; create_request token repo branch]
        /\ (forall content sha,
              GitHub.files_at at_write branch !! CONFIG_FILE_NAME
                = Some (GitHub.Blob content sha) ->
              Run.outcome r = inl (Rejected Conflict) /\ Run.final r = at_write)
        /\ (GitHub.files_at at_write branch !! CONFIG_FILE_NAME = None ->
              Run.outcome r = inr tt
              /\ GitHub.files_at (Run.final r) branch !! CONFIG_FILE_NAME
                 = Some (GitHub.Blob CONFIG_FILE_TEMPLATE (git_hash CONFIG_FILE_TEMPLATE)))).
Proof.
  intros r at_listing at_write. unfold r, createConfigFile. rewrite run_bind.
  cbn [getRepoFiles run step GitHub.handler on_getRepoFiles GitHub.list_tree
       Run.outcome Run.final Run.requests].
  fold at_listing. split.
  - intros Hpresent. apply find_in_tree in Hpresent as [x Hx]. by rewrite Hx.
  - intros Habsent.
    destruct (List.find _ _) as [x|] eqn:Hfind.
    { assert (Hsome : is_Some (GitHub.files_at at_listing branch !! CONFIG_FILE_NAME)).
      { apply find_in_tree. rewrite Hfind. by eexists. }
      rewrite Habsent in Hsome. by destruct Hsome. }
    cbn [saveFile run step GitHub.handler on_saveFile Run.outcome Run.final Run.requests].
    unfold GitHub.write_file.
    cbn [SaveParams.sha SaveParams.branch SaveParams.path SaveParams.content].
    fold at_write. split; [|split].
    + by destruct (GitHub.files_at at_write branch !! CONFIG_FILE_NAME) as [[c s|s]|].
    + by intros content sha ->.
    + intros ->. simpl. split; [done|]. apply files_at_put.
Qed.
